(** * datajoin: the report builder for Brookfield DV2 viscometer exports

    A shallow embedding of [datajoin.py] and the properties of its
    specification.  The file follows the program leaf to root: the
    exceptions Python raises, the dialect sniffer, the value coercer, the
    record reader and the stroke merger [calculate_rates]. *)

From Stdlib Require Import ZArith String Ascii List Lia.
From stdpp Require Import base option list sorting lexico gmap strings pretty.

Local Open Scope Z_scope.

(** ** Exceptions *)

(** The exceptions the modelled code meets.  [csv_Error] is [csv.Error];
    [ValueError] covers dateutil's [ParserError], its subclass;
    [OverflowError] is what dateutil's parser raises on a date beyond
    the integers of the machine. *)
Inductive exn : Set :=
  | IndexError
  | KeyError
  | ValueError
  | TypeError
  | OverflowError
  | csv_Error.

Global Instance exn_eq_dec : EqDecision exn.
Proof. solve_decision. Defined.

(** The outcome of a Python call: a value is returned or an exception
    propagates. *)
Inductive result (A : Type) : Type :=
  | Ok (a : A)
  | Raise (e : exn).
Global Arguments Ok {A} a.
Global Arguments Raise {A} e.

Global Instance result_ret : MRet result := λ A a, Ok a.
Global Instance result_bind : MBind result := λ A B k r,
  match r with
  | Ok a => k a
  | Raise e => Raise e
  end.

(** [try: body except e: handler]. *)
Definition try_except {A} (body : result A) (e : exn) (handler : result A)
    : result A :=
  match body with
  | Ok a => Ok a
  | Raise e' => if decide (e' = e) then handler else Raise e'
  end.

(** What a call that returns nothing on failure raises. *)
Definition or_raise {A} (e : exn) (o : option A) : result A :=
  match o with
  | Some a => Ok a
  | None => Raise e
  end.

(** [l[i]] for a Python list: a negative index counts from the end, an
    index out of range raises [IndexError]. *)
Definition py_index {A} (l : list A) (i : Z) : result A :=
  let n := Z.of_nat (length l) in
  let j := if i <? 0 then n + i else i in
  if (j <? 0) || (n <=? j) then Raise IndexError
  else or_raise IndexError (l !! Z.to_nat j).

(** [dict(pairs)]: the pairs are inserted left to right, so a later pair
    replaces an earlier one with the same key. *)
Definition py_dict {V} (pairs : list (string * V)) : gmap string V :=
  foldl (λ m kv, <[kv.1 := kv.2]> m) ∅ pairs.

(** ** Text streams *)

(** An open text file: its decoded text and the read position. *)
Record TextIO : Set := mkTextIO {
  content : string;
  position : nat
}.

(** [fp.read(n)]: at most [n] characters from the position on. *)
Definition fp_read (fp : TextIO) (n : nat) : string * TextIO :=
  let s := substring (position fp) n (content fp) in
  (s, mkTextIO (content fp) (position fp + String.length s)).

(** [fp.seek(n)]. *)
Definition fp_seek (fp : TextIO) (n : nat) : TextIO :=
  mkTextIO (content fp) n.

(** [fp.read()]: the rest of the text. *)
Definition fp_read_all (fp : TextIO) : string * TextIO :=
  fp_read fp (String.length (content fp) - position fp).

(** ** CSV dialects *)

Inductive quoting_style : Set :=
  | QUOTE_MINIMAL
  | QUOTE_ALL
  | QUOTE_NONNUMERIC
  | QUOTE_NONE.

Record Dialect : Set := mkDialect {
  delimiter : ascii;
  quotechar : ascii;
  doublequote : bool;
  skipinitialspace : bool;
  lineterminator : string;
  quoting : quoting_style
}.

Definition char_tab : ascii := ascii_of_nat 9.
Definition char_cr : ascii := ascii_of_nat 13.
Definition char_lf : ascii := ascii_of_nat 10.
Definition char_quote : ascii := ascii_of_nat 34.

(** [csv.excel]. *)
Definition csv_excel : Dialect :=
  mkDialect "," char_quote true false
    (String char_cr (String char_lf EmptyString)) QUOTE_MINIMAL.

(** The [delimiters] argument of the sniffer call: [',;\t']. *)
Definition sniff_delimiters : string :=
  String "," (String ";" (String char_tab EmptyString)).

(** ** Sorting *)

(** Python's [sorted] compares with [<] only and is stable.  The model is
    an insertion sort: an element goes before the first one that is not
    smaller than it, so equal elements keep their order. *)
Fixpoint insort {A} (lt : A → A → bool) (x : A) (l : list A) : list A :=
  match l with
  | [] => [x]
  | y :: l' => if lt y x then y :: insort lt x l' else x :: y :: l'
  end.

Definition py_sorted {A} (lt : A → A → bool) (l : list A) : list A :=
  foldr (insort lt) [] l.

(** [y] is not smaller than [x]: what [sorted] guarantees of an element
    [x] and any later element [y] of its result. *)
Definition not_after {A} (lt : A → A → bool) (x y : A) : Prop :=
  lt y x = false.

(** ** Timestamps *)

(** A naive date-time, as its position on the time line, a count of time units. *)
Definition datetime : Set := Z.

(** ** Readers for the examples *)

(** Concrete readers to run the program on examples: plain decimal
    integers with an optional sign for [int], decimals with a point for
    [float] (a decimal is kept as its digits and the number of digits
    after the point), and a day count and a second count for the
    timestamp parser.  Python's readers accept these texts, and more. *)
Definition digit_of (c : ascii) : option Z :=
  let n := Z.of_nat (nat_of_ascii c) in
  if (48 <=? n) && (n <=? 57) then Some (n - 48) else None.

Fixpoint digits_from (acc : Z) (s : string) : option Z :=
  match s with
  | EmptyString => Some acc
  | String c s' =>
      match digit_of c with
      | Some d => digits_from (10 * acc + d) s'
      | None => None
      end
  end.

Definition dec_nat (s : string) : option Z :=
  match s with
  | EmptyString => None
  | _ => digits_from 0 s
  end.

Definition dec_int (s : string) : option Z :=
  match s with
  | String "-" s' => Z.opp <$> dec_nat s'
  | String "+" s' => dec_nat s'
  | _ => dec_nat s
  end.

Fixpoint split_at (sep : ascii) (s : string) : option (string * string) :=
  match s with
  | EmptyString => None
  | String c s' =>
      if decide (c = sep) then Some (EmptyString, s')
      else prod_map (String c) id <$> split_at sep s'
  end.

Definition dec_float (s : string) : option (Z * nat) :=
  match split_at "." s with
  | Some (a, b) => m ← dec_int (a +:+ b); Some (m, String.length b)
  | None => m ← dec_int s; Some (m, 0%nat)
  end.

Definition dec_datetime (s : string) : option datetime :=
  '(d, t) ← split_at " " s;
  day ← dec_int d;
  second ← dec_int t;
  Some (86400 * day + second).

(** ** Python's readers of numbers *)

(** [int(value)] and [float(value)] of CPython on ASCII text (a
    character outside ASCII is taken as a letter: the white space and
    the digits beyond ASCII are not modelled).  [None] is [ValueError]. *)


Definition is_digit (c : ascii) : bool :=
  match digit_of c with
  | Some _ => true
  | None => false
  end.

















(** What the specification calls a valid integer literal is read as an
    optional sign and decimal digits, [dec_int]; a valid decimal that is
    not an integer as an optional sign and digits with one point among
    them: its sign, its digits and the number of digits after the
    point. *)
Fixpoint all_digits (s : string) : bool :=
  match s with
  | EmptyString => true
  | String c s' => is_digit c && all_digits s'
  end.


Section Datajoin.

(** Python's floats are kept abstract: the program only parses, copies
    and prints them. *)
Variable float : Type.

(** [int(value)] and [float(value)] on text; [None] is [ValueError]. *)
Variable py_int : string → option Z.
Variable py_float : string → option float.

(** [csv.Sniffer().sniff(sample, delimiters)]; [None] is [csv.Error]. *)
Variable Sniffer_sniff : string → string → option Dialect.

(** [list(csv.reader(fp, dialect))] on the text left in the stream. *)
Variable csv_reader : Dialect → string → list (list string).

(** [dateutil.parser.parse]; [None] is its [ParserError]. *)
Variable dtparser_parse : string → option datetime.

(** What a cell of a record holds. *)
Inductive pyval : Type :=
  | VInt (n : Z)
  | VFloat (x : float)
  | VStr (s : string)
  | VDateTime (t : datetime).

(** *** Dialect Sniffer *)

(** [try: return sniff(fp.read(2000), ...) except csv.Error: return
    csv.excel finally: fp.seek(0)].  The stream after the call is the
    second component, whatever the first one is. *)
Definition sniff_dialect (fp : TextIO) : result Dialect * TextIO :=
  let '(sample, fp1) := fp_read fp 2000 in
  let body := or_raise csv_Error (Sniffer_sniff sample sniff_delimiters) in
  (try_except body csv_Error (Ok csv_excel), fp_seek fp1 0).

(** *** Value Coercer *)

Definition transform_value (value : string) : pyval :=
  match py_int value with
  | Some n => VInt n
  | None =>
      match py_float value with
      | Some x => VFloat x
      | None => VStr value
      end
  end.

(** *** Record Reader *)

(** Lines 81-82 of the reader, on the grid [data] read from the file. *)
Definition read_grid (data : list (list string)) : result (gmap string pyval) :=
  row ← py_index data 7;
  d ← py_index row 2;
  t ← py_index row 3;
  dt ← or_raise ValueError (dtparser_parse (d +:+ " " +:+ t));
  names ← py_index data (-3);
  values ← py_index data (-1);
  let fields := py_dict (zip names (transform_value <$> values)) in
  (* dict(DT=dt, **fields): a keyword given twice is a TypeError *)
  if decide (is_Some (fields !! "DT"%string)) then Raise TypeError
  else Ok (<["DT"%string := VDateTime dt]> fields).

(** [read_data] on the opened file. *)
Definition read_data (fp : TextIO) : result (gmap string pyval) :=
  let '(r, fp1) := sniff_dialect fp in
  dialect ← r;
  read_grid (csv_reader dialect (fp_read_all fp1).1).

(** ** Stroke Merger *)

(** The cells the merger compares.  Python's [==], [hash] and [<] agree
    on ints and finite floats of the same numerical value, so a cell is
    taken by its value: the merger is modelled over any type of values
    whose equality is decidable and on which [<] is [lexico], a total
    strict order (the numerical values of the instrument's cells). *)
Context {value : Type} `{Countable value} `{Lexico value}.
Context `{!TrichotomyT (@lexico value _)}.

(** A measurement record, by the five fields the merger reads.  Records
    that lack one of them, and keys that Python cannot compare, are
    outside the model. *)
Record point : Type := mkPoint {
  DT : datetime;
  Speed : value;
  Shear_Rate : value;
  Viscosity : value;
  Shear_Stress : value
}.

(** The group key [(point['Speed'], point['Shear Rate'])]; tuples are
    compared lexicographically. *)
Local Abbreviation key := (value * value)%type.

Definition point_key (p : point) : key := (Speed p, Shear_Rate p).

Definition key_lt (a b : key) : bool :=
  match trichotomyT lexico a b with
  | inleft (left _) => true
  | _ => false
  end.

Definition DT_lt (p q : point) : bool := bool_decide (DT p < DT q).

(** The rows written by the loop. *)
Definition row4 (p : point) : list value :=
  [Speed p; Shear_Rate p; Viscosity p; Shear_Stress p].

Definition row6 (p : point) : list value :=
  [Speed p; Shear_Rate p; Viscosity p; Shear_Stress p;
   Viscosity p; Shear_Stress p].

(** One turn of the loop of lines 123-144. *)
Definition merge_point (max_point : key) (output : gmap key (list value))
    (p : point) : gmap key (list value) :=
  let point_index := point_key p in
  if decide (point_index = max_point) then
    <[point_index := row6 p]> output
  else
    match output !! point_index with
    | Some row =>
        if decide (length row < 6)%nat then
          <[point_index := row ++ [Viscosity p; Shear_Stress p]]> output
        else output
    | None => <[point_index := row4 p]> output
    end.

Definition sorted_points (points : list point) : list point :=
  py_sorted DT_lt points.

(** [sorted(list({... for point in sorted_points}))]. *)
Definition order (points : list point) : list key :=
  py_sorted key_lt
    (elements (list_to_set (point_key <$> sorted_points points) : gset key)).

(** The loop, from the empty [output]. *)
Definition merge_loop (max_point : key) (ps : list point)
    : gmap key (list value) :=
  foldl (merge_point max_point) ∅ ps.

Definition calculate_rates (points : list point) : result (list (list value)) :=
  max_point ← or_raise IndexError (last (order points));
  let output := merge_loop max_point (sorted_points points) in
  mapM (λ index, or_raise KeyError (output !! index)) (order points).


(** The records of group key [k], in the order of the list. *)
Definition occurrences (k : key) (ps : list point) : list point :=
  filter (λ p, point_key p = k) ps.

(** The key a row stands for: its first two cells. *)
Definition row_key (row : list value) : option key :=
  match row with
  | speed :: shear_rate :: _ => Some (speed, shear_rate)
  | _ => None
  end.

(** * Properties *)

(** ** Python lists and dicts *)

Lemma py_index_nonneg {A} (l : list A) (i : Z) :
  0 ≤ i → py_index l i = or_raise IndexError (l !! Z.to_nat i).
Proof.
  intros Hi. unfold py_index.
  destruct (Z.ltb_spec i 0) as [?|_]; [lia|].
  destruct (Z.ltb_spec i 0) as [?|_]; [lia|]. simpl.
  destruct (Z.leb_spec (Z.of_nat (length l)) i) as [Hge|_]; [|done].
  rewrite lookup_ge_None_2; [done|lia].
Qed.

Lemma py_index_neg {A} (l : list A) (i : Z) :
  i < 0 →
  py_index l i =
    if decide (Z.of_nat (length l) + i < 0) then Raise IndexError
    else or_raise IndexError (l !! Z.to_nat (Z.of_nat (length l) + i)).
Proof.
  intros Hi. unfold py_index.
  destruct (Z.ltb_spec i 0) as [_|?]; [|lia].
  destruct (Z.ltb_spec (Z.of_nat (length l) + i) 0) as [?|?];
    destruct (decide _) as [?|?]; try lia; [done|]. simpl.
  destruct (Z.leb_spec (Z.of_nat (length l)) (Z.of_nat (length l) + i));
    [lia|done].
Qed.

Lemma py_index_short {A} (l : list A) (i : Z) :
  0 ≤ i → (length l ≤ Z.to_nat i)%nat → py_index l i = Raise IndexError.
Proof.
  intros Hi Hlen. rewrite py_index_nonneg by done.
  by rewrite lookup_ge_None_2.
Qed.

Lemma py_index_from_end {A} (l : list A) (k : nat) :
  (0 < k ≤ length l)%nat →
  py_index l (- Z.of_nat k) = or_raise IndexError (l !! (length l - k)%nat).
Proof.
  intros Hk. rewrite py_index_neg by lia.
  destruct (decide _) as [?|_]; [lia|].
  do 2 f_equal. lia.
Qed.

Lemma py_dict_snoc {V} (pairs : list (string * V)) (kv : string * V) :
  py_dict (pairs ++ [kv]) = <[kv.1 := kv.2]> (py_dict pairs).
Proof. unfold py_dict. by rewrite foldl_app. Qed.

(** The value under a key is the one of its last pair. *)
Lemma py_dict_lookup_last {V} (pairs : list (string * V)) i k v :
  pairs !! i = Some (k, v) →
  (∀ j v', (i < j)%nat → pairs !! j ≠ Some (k, v')) →
  py_dict pairs !! k = Some v.
Proof.
  revert i. induction pairs as [|[k' v'] pairs IH] using rev_ind;
    intros i Hi Hlast; [done|].
  rewrite py_dict_snoc. simpl.
  destruct (decide (i = length pairs)) as [->|Hne].
  - rewrite list_lookup_middle in Hi by done.
    injection Hi as -> ->. by rewrite lookup_insert_eq.
  - assert (i < length pairs)%nat as Hlt.
    { apply lookup_lt_Some in Hi. rewrite length_app in Hi. simpl in Hi. lia. }
    rewrite lookup_app_l in Hi by done.
    destruct (decide (k' = k)) as [->|Hk].
    + exfalso. apply (Hlast (length pairs) v'); [done|].
      by rewrite list_lookup_middle.
    + rewrite lookup_insert_ne by done.
      apply (IH i); [done|]. intros j w Hj Hjw.
      apply (Hlast j w); [done|].
      rewrite lookup_app_l; [done|]. by apply lookup_lt_Some in Hjw.
Qed.

Lemma py_dict_is_Some {V} (pairs : list (string * V)) k :
  is_Some (py_dict pairs !! k) ↔ ∃ i v, pairs !! i = Some (k, v).
Proof.
  induction pairs as [|[k' v'] pairs IH] using rev_ind.
  - unfold py_dict. simpl. rewrite lookup_empty. split.
    + by intros [? ?].
    + by intros (i & v & ?).
  - rewrite py_dict_snoc. simpl.
    destruct (decide (k' = k)) as [->|Hk].
    + rewrite lookup_insert_eq. split; [|by eauto].
      intros _. exists (length pairs), v'. by rewrite list_lookup_middle.
    + rewrite lookup_insert_ne by done. rewrite IH. split.
      * intros (i & v & Hi). exists i, v.
        rewrite lookup_app_l; [done|]. by apply lookup_lt_Some in Hi.
      * intros (i & v & Hi).
        destruct (decide (i < length pairs)%nat) as [Hlt|Hge].
        -- exists i, v. by rewrite lookup_app_l in Hi.
        -- rewrite lookup_app_r in Hi by lia.
           destruct (i - length pairs)%nat; simpl in Hi; [|done].
           by injection Hi as -> _.
Qed.

Lemma zip_fmap_lookup {A B C} (f : B → C) (names : list A) (values : list B)
    i (a : A) (c : C) :
  zip names (f <$> values) !! i = Some (a, c) ↔
  names !! i = Some a ∧ ∃ b, values !! i = Some b ∧ c = f b.
Proof.
  revert values i. induction names as [|a' names IH]; intros [|b' values] i;
    simpl; try (split; [done|]).
  - by intros [? _].
  - by intros [? _].
  - by intros [_ (? & ? & _)].
  - destruct i as [|i]; simpl.
    + split.
      * intros [= -> <-]. eauto.
      * intros [[= ->] (b & [= ->] & ->)]. done.
    + apply IH.
Qed.

Lemma substring_all (s : string) : substring 0 (String.length s) s = s.
Proof. induction s as [|c s IH]; simpl; [done|]. by rewrite IH. Qed.

(** ** Dialect Sniffer *)

Lemma sniff_dialect_Ok (fp : TextIO) :
  ∃ dialect, sniff_dialect fp = (Ok dialect, mkTextIO (content fp) 0).
Proof.
  unfold sniff_dialect, fp_read, fp_seek. simpl.
  destruct (Sniffer_sniff _ sniff_delimiters) as [d|]; simpl; eauto.
Qed.

(** C9.  The sniffer never raises: on every stream it returns a dialect,
    which is the one detected on the first 2000 characters with the
    candidate delimiters comma, semicolon and tab when detection succeeds,
    and the fallback [csv.excel] (comma, minimal quoting) when detection
    fails; in both cases the stream is left at position 0 with its text
    unchanged. *)
Theorem sniff_dialect_never_raises (fp : TextIO) :
  let sample := substring (position fp) 2000 (content fp) in
  ∃ dialect,
    sniff_dialect fp = (Ok dialect, mkTextIO (content fp) 0) ∧
    (Sniffer_sniff sample sniff_delimiters = Some dialect ∨
     (Sniffer_sniff sample sniff_delimiters = None ∧ dialect = csv_excel ∧
      delimiter dialect = ","%char ∧ quoting dialect = QUOTE_MINIMAL)) ∧
    sniff_delimiters = String "," (String ";" (String char_tab EmptyString)).
Proof.
  intros sample. unfold sniff_dialect, fp_read, fp_seek. simpl.
  fold sample.
  destruct (Sniffer_sniff sample sniff_delimiters) as [d|] eqn:Hsniff; simpl.
  - exists d. auto.
  - exists csv_excel. repeat split; auto.
Qed.

(** After sniffing, the reader sees the whole text of the file. *)
Lemma read_data_grid (fp : TextIO) :
  ∃ dialect, read_data fp = read_grid (csv_reader dialect (content fp)).
Proof.
  destruct (sniff_dialect_Ok fp) as (d & Hd).
  exists d. unfold read_data. rewrite Hd. simpl.
  unfold fp_read_all, fp_read. simpl.
  by rewrite Nat.sub_0_r, substring_all.
Qed.

(** ** Value Coercer *)


(** ** Record Reader *)

(** When the reader returns, and what. *)
Lemma read_grid_Ok (data : list (list string)) (record : gmap string pyval) :
  read_grid data = Ok record ↔
  ∃ row d t dt names values,
    data !! 7%nat = Some row ∧ row !! 2%nat = Some d ∧ row !! 3%nat = Some t ∧
    dtparser_parse (d +:+ " " +:+ t) = Some dt ∧
    data !! (length data - 3)%nat = Some names ∧
    data !! (length data - 1)%nat = Some values ∧
    py_dict (zip names (transform_value <$> values)) !! "DT"%string = None ∧
    record =
      <["DT"%string := VDateTime dt]>
        (py_dict (zip names (transform_value <$> values))).
Proof.
  unfold read_grid.
  rewrite (py_index_nonneg data 7) by lia.
  change (Z.to_nat 7) with 7%nat.
  destruct (data !! 7%nat) as [row|] eqn:Hrow; simpl;
    [|split; [done|by intros (? & ? & ? & ? & ? & ? & ? & _)]].
  assert (8 ≤ length data)%nat as Hlen by (apply lookup_lt_Some in Hrow; lia).
  rewrite (py_index_nonneg row 2), (py_index_nonneg row 3) by lia.
  change (Z.to_nat 2) with 2%nat. change (Z.to_nat 3) with 3%nat.
  change (-3) with (- Z.of_nat 3). change (-1) with (- Z.of_nat 1).
  rewrite !py_index_from_end by lia.
  destruct (row !! 2%nat) as [d|] eqn:Hd; simpl;
    [|split; [done|intros (? & ? & ? & ? & ? & ? & [= <-] & ? & _); congruence]].
  destruct (row !! 3%nat) as [t|] eqn:Ht; simpl;
    [|split; [done|intros (? & ? & ? & ? & ? & ? & [= <-] & ? & ? & _); congruence]].
  destruct (dtparser_parse (d +:+ " " +:+ t)) as [dt|] eqn:Hdt; simpl.
  2:{ split; [done|].
      intros (? & ? & ? & ? & ? & ? & [= <-] & ? & ? & ? & _).
      congruence. }
  destruct (lookup_lt_is_Some_2 data (length data - 3)%nat) as [names Hn];
    [lia|].
  destruct (lookup_lt_is_Some_2 data (length data - 1)%nat) as [values Hv];
    [lia|].
  rewrite Hn, Hv. simpl.
  destruct (decide _) as [HDT|HDT].
  - split; [done|].
    intros (? & ? & ? & ? & ? & ? & _ & _ & _ & _ & [= <-] & [= <-] & Hnone & _).
    rewrite Hnone in HDT. by destruct HDT.
  - apply eq_None_not_Some in HDT. split.
    + intros [= <-]. by exists row, d, t, dt, names, values.
    + intros (? & d' & t' & dt' & ? & ? & [= <-] & Hd' & Ht' & Hdt' &
                [= <-] & [= <-] & _ & ->).
      do 3 f_equal. congruence.
Qed.

(** The names that reach the record: those paired with a value. *)
Lemma fields_is_Some (names values : list string) (name : string) :
  is_Some (py_dict (zip names (transform_value <$> values)) !! name) ↔
  ∃ i, names !! i = Some name ∧ (i < length values)%nat.
Proof.
  rewrite py_dict_is_Some. split.
  - intros (i & v & Hi). apply zip_fmap_lookup in Hi as [Hn (c & Hc & _)].
    exists i. split; [done|]. by apply lookup_lt_Some in Hc.
  - intros (i & Hn & Hlt).
    destruct (lookup_lt_is_Some_2 values i Hlt) as [c Hc].
    exists i, (transform_value c). apply zip_fmap_lookup. eauto.
Qed.

(** C3, as the code has it.  The record the reader returns maps each
    field name of the third row from the end of the grid to the coerced
    cell at the same position of the last row, as far as both rows reach
    (of a name that occurs twice the last paired occurrence counts), and
    maps DT to the timestamp parsed from cells 2 and 3 of row 7; it has
    no other entries. *)
Theorem read_grid_record (data : list (list string))
    (record : gmap string pyval) :
  read_grid data = Ok record →
  ∃ names values row d t dt,
    data !! (length data - 3)%nat = Some names ∧
    data !! (length data - 1)%nat = Some values ∧
    data !! 7%nat = Some row ∧ row !! 2%nat = Some d ∧ row !! 3%nat = Some t ∧
    dtparser_parse (d +:+ " " +:+ t) = Some dt ∧
    record !! "DT"%string = Some (VDateTime dt) ∧
    (∀ i name cell,
       names !! i = Some name → values !! i = Some cell →
       (∀ j, (i < j < length values)%nat → names !! j ≠ Some name) →
       record !! name = Some (transform_value cell)) ∧
    (∀ name, is_Some (record !! name) →
       name = "DT"%string ∨
       ∃ i, names !! i = Some name ∧ (i < length values)%nat).
Proof.
  intros Hok. apply read_grid_Ok in Hok
    as (row & d & t & dt & names & values & Hrow & Hd & Ht & Hdt & Hn & Hv &
        HDT & ->).
  exists names, values, row, d, t, dt. repeat (split; [done|]).
  split; [by rewrite lookup_insert_eq|]. split.
  - intros i name cell Hi Hc Hlast.
    assert (name ≠ "DT"%string) as Hne.
    { intros ->. apply eq_None_not_Some in HDT. apply HDT.
      apply fields_is_Some. exists i. split; [done|].
      by apply lookup_lt_Some in Hc. }
    rewrite lookup_insert_ne by done.
    apply (py_dict_lookup_last _ i).
    + apply zip_fmap_lookup. eauto.
    + intros j v' Hj Hjv. apply zip_fmap_lookup in Hjv as [Hjn (c & Hjc & _)].
      apply (Hlast j); [|done]. split; [done|]. by apply lookup_lt_Some in Hjc.
  - intros name Hsome. destruct (decide (name = "DT"%string)) as [->|Hne];
      [by left|right].
    rewrite lookup_insert_ne in Hsome by done. by apply fields_is_Some.
Qed.

(** C4, as the code has it.  The reader raises [IndexError] on a grid of
    fewer than 8 rows and on a row 7 of fewer than 4 cells, and the
    parser's error when the two timestamp cells do not parse.  Trailing
    rows of different lengths raise nothing: once the timestamp is read
    and no paired field name is DT, a record is returned whatever the
    lengths of the names row and the values row. *)
Theorem read_grid_failures (data : list (list string)) :
  ((length data < 8)%nat → read_grid data = Raise IndexError) ∧
  (∀ row, data !! 7%nat = Some row → (length row < 4)%nat →
     read_grid data = Raise IndexError) ∧
  (∀ row d t,
     data !! 7%nat = Some row → row !! 2%nat = Some d → row !! 3%nat = Some t →
     dtparser_parse (d +:+ " " +:+ t) = None →
     read_grid data = Raise ValueError) ∧
  (∀ row d t dt names values,
     data !! 7%nat = Some row → row !! 2%nat = Some d → row !! 3%nat = Some t →
     dtparser_parse (d +:+ " " +:+ t) = Some dt →
     data !! (length data - 3)%nat = Some names →
     data !! (length data - 1)%nat = Some values →
     "DT"%string ∉ take (length values) names →
     ∃ record, read_grid data = Ok record).
Proof.
  repeat split.
  - intros Hlen. unfold read_grid.
    by rewrite (py_index_short data 7) by lia.
  - intros row Hrow Hlen. unfold read_grid.
    rewrite (py_index_nonneg data 7) by lia.
    change (Z.to_nat 7) with 7%nat. rewrite Hrow. simpl.
    destruct (py_index row 2) as [d|e] eqn:Hd; simpl.
    + by rewrite (py_index_short row 3) by lia.
    + rewrite py_index_nonneg in Hd by lia.
      by destruct (row !! Z.to_nat 2); simplify_eq/=.
  - intros row d t Hrow Hd Ht Hdt. unfold read_grid.
    rewrite (py_index_nonneg data 7) by lia.
    change (Z.to_nat 7) with 7%nat. rewrite Hrow. simpl.
    rewrite (py_index_nonneg row 2), (py_index_nonneg row 3) by lia.
    change (Z.to_nat 2) with 2%nat. change (Z.to_nat 3) with 3%nat.
    rewrite Hd. simpl. rewrite Ht. simpl. by rewrite Hdt.
  - intros row d t dt names values Hrow Hd Ht Hdt Hn Hv HDT.
    eexists. apply read_grid_Ok.
    exists row, d, t, dt, names, values. repeat (split; [done|]).
    split; [|done]. apply eq_None_not_Some. rewrite fields_is_Some.
    intros (i & Hi & Hlt). apply HDT.
    apply list_elem_of_lookup. exists i. by rewrite lookup_take_lt.
Qed.

(** ** Sorting *)

Section sorting.
Context {A : Type} (lt : A → A → bool).

Lemma insort_Permutation (x : A) (l : list A) : insort lt x l ≡ₚ x :: l.
Proof.
  induction l as [|y l IH]; simpl; [done|].
  destruct (lt y x); [|done]. rewrite IH. apply Permutation_swap.
Qed.

Lemma py_sorted_Permutation (l : list A) : py_sorted lt l ≡ₚ l.
Proof.
  induction l as [|x l IH]; simpl; [done|].
  fold (py_sorted lt l). by rewrite insort_Permutation, IH.
Qed.

Lemma py_sorted_elem_of (l : list A) (x : A) : x ∈ py_sorted lt l ↔ x ∈ l.
Proof. by rewrite py_sorted_Permutation. Qed.

Lemma py_sorted_length (l : list A) : length (py_sorted lt l) = length l.
Proof. by rewrite py_sorted_Permutation. Qed.

Lemma py_sorted_nil_inv (l : list A) : py_sorted lt l = [] → l = [].
Proof.
  intros Hnil. apply Permutation_nil_r.
  rewrite <-Hnil. symmetry. apply py_sorted_Permutation.
Qed.

(** Stability: the elements that satisfy [P] keep their order, when
    nothing smaller than such an element satisfies [P] as well as it. *)
Lemma insort_filter (P : A → Prop) `{∀ x, Decision (P x)} (x : A) (l : list A) :
  (∀ y, lt y x = true → P x → ¬ P y) →
  filter P (insort lt x l) = filter P (x :: l).
Proof.
  intros Hlt. induction l as [|y l IH]; simpl; [done|].
  destruct (lt y x) eqn:Hyx; [|done].
  rewrite filter_cons, IH. rewrite !filter_cons.
  destruct (decide (P y)) as [Hy|Hy]; [|done].
  destruct (decide (P x)) as [Hx|Hx]; [|done].
  by destruct (Hlt y Hyx Hx).
Qed.

Hypothesis lt_asym : ∀ x y, lt x y = true → lt y x = false.
Hypothesis not_after_trans :
  ∀ x y z, not_after lt x y → not_after lt y z → not_after lt x z.

Lemma insort_HdRel (a x : A) (l : list A) :
  not_after lt a x → HdRel (not_after lt) a l → HdRel (not_after lt) a (insort lt x l).
Proof.
  intros Hax Hal. destruct l as [|y l]; simpl; [by constructor|].
  destruct (lt y x); constructor; [by inv Hal|done].
Qed.

Lemma insort_Sorted (x : A) (l : list A) :
  Sorted (not_after lt) l → Sorted (not_after lt) (insort lt x l).
Proof.
  induction 1 as [|y l Hl IH Hhd]; simpl; [by repeat constructor|].
  destruct (lt y x) eqn:Hyx.
  - constructor; [done|]. apply insort_HdRel; [|done].
    by apply lt_asym.
  - constructor; [by constructor|]. by constructor.
Qed.

Lemma py_sorted_Sorted (l : list A) : StronglySorted (not_after lt) (py_sorted lt l).
Proof.
  apply Sorted.Sorted_StronglySorted.
  { intros x y z. apply not_after_trans. }
  induction l as [|x l IH]; simpl; [constructor|].
  by apply insort_Sorted.
Qed.

End sorting.

Lemma StronglySorted_weaken {A} (R S : relation A) (l : list A) :
  (∀ x y, R x y → S x y) → StronglySorted R l → StronglySorted S l.
Proof.
  intros HRS. induction 1 as [|x l Hl IH Hall]; constructor; [done|].
  eapply Forall_impl; [done|]. intros y. apply HRS.
Qed.

(** ** The order of the group keys *)

Lemma sorted_points_Permutation (points : list point) :
  sorted_points points ≡ₚ points.
Proof. apply py_sorted_Permutation. Qed.

(** The records are walked in ascending order of [DT]. *)
Lemma sorted_points_Sorted (points : list point) :
  StronglySorted (λ p q, DT p ≤ DT q) (sorted_points points).
Proof.
  eapply StronglySorted_weaken; [|apply (py_sorted_Sorted DT_lt)].
  - intros p q. unfold not_after, DT_lt. rewrite bool_decide_eq_false. lia.
  - intros p q. unfold DT_lt. rewrite bool_decide_eq_true, bool_decide_eq_false.
    lia.
  - intros p q r. unfold not_after, DT_lt. rewrite !bool_decide_eq_false. lia.
Qed.

(** Records of the same [DT] keep the order of the input. *)
Lemma sorted_points_stable (points : list point) (t : datetime) :
  filter (λ p, DT p = t) (sorted_points points) = filter (λ p, DT p = t) points.
Proof.
  induction points as [|p points IH]; simpl; [done|].
  fold (py_sorted DT_lt points). fold (sorted_points points).
  rewrite insort_filter.
  - by rewrite !filter_cons, IH.
  - intros q. unfold DT_lt. rewrite bool_decide_eq_true. lia.
Qed.

Lemma elem_of_order (points : list point) (k : value * value) :
  k ∈ order points ↔ ∃ p, p ∈ points ∧ point_key p = k.
Proof.
  unfold order. rewrite py_sorted_elem_of, elem_of_elements.
  rewrite elem_of_list_to_set, list_elem_of_fmap.
  setoid_rewrite (sorted_points_Permutation points).
  split; [intros (p & -> & Hp)|intros (p & Hp & <-)]; eauto.
Qed.

Lemma NoDup_order (points : list point) : NoDup (order points).
Proof.
  unfold order. rewrite py_sorted_Permutation. apply NoDup_elements.
Qed.

Lemma order_nil (points : list point) : order points = [] ↔ points = [].
Proof.
  split.
  - intros Hnil. destruct points as [|p points]; [done|].
    assert (point_key p ∈ order (p :: points)) as Hin.
    { apply elem_of_order. exists p. split; [left|done]. }
    rewrite Hnil in Hin. by apply elem_of_nil in Hin.
  - by intros ->.
Qed.

Lemma last_order_is_Some (points : list point) :
  points ≠ [] → is_Some (last (order points)).
Proof.
  intros Hne. destruct (last (order points)) eqn:Hlast; [by eexists|].
  apply last_None in Hlast. by apply order_nil in Hlast.
Qed.

(** The order of the keys: speed first, then shear rate. *)
Remark key_lexico (a b : value * value) :
  lexico a b ↔ lexico a.1 b.1 ∨ a.1 = b.1 ∧ lexico a.2 b.2.
Proof. done. Qed.

Lemma key_lt_true (a b : value * value) : key_lt a b = true → lexico a b.
Proof. unfold key_lt. by destruct (trichotomyT lexico a b) as [[?|?]|?]. Qed.

Section strict.
Context `{!StrictOrder (@lexico value _)}.

Lemma key_lt_spec (a b : value * value) : key_lt a b = true ↔ lexico a b.
Proof.
  split; [apply key_lt_true|]. unfold key_lt. intros Hab.
  destruct (trichotomyT lexico a b) as [[?| ->]|Hba]; [done| |].
  - by apply irreflexivity in Hab; [|apply _].
  - destruct (irreflexivity lexico a). by trans b.
Qed.

Lemma key_not_after (a b : value * value) :
  not_after key_lt a b ↔ a = b ∨ lexico a b.
Proof.
  unfold not_after. rewrite <-not_true_iff_false, key_lt_spec. split.
  - intros Hba. destruct (trichotomyT lexico a b) as [[?|?]|?]; tauto.
  - intros [ ->|Hab] Hba.
    + by apply irreflexivity in Hba; [|apply _].
    + destruct (irreflexivity lexico a). by trans b.
Qed.

(** The keys are strictly ascending in [order]. *)
Lemma order_StronglySorted (points : list point) :
  StronglySorted lexico (order points).
Proof.
  assert (StronglySorted (not_after key_lt) (order points)) as Hs.
  { apply py_sorted_Sorted.
    - intros a b. rewrite key_lt_spec. intros Hab.
      apply not_true_iff_false. rewrite key_lt_spec. intros Hba.
      destruct (irreflexivity lexico a). by trans b.
    - intros a b c. rewrite !key_not_after.
      intros [ ->|Hab] [ ->|Hbc]; auto. right. by trans b. }
  pose proof (NoDup_order points) as Hnd.
  induction Hs as [|a l Hs IH Hall]; [constructor|].
  apply NoDup_cons in Hnd as [Hnotin Hnd]. constructor; [by apply IH|].
  rewrite Forall_forall in Hall |- *. intros b Hb.
  destruct (proj1 (key_not_after a b) (Hall b Hb)) as [ ->|?]; [done|done].
Qed.

(** [order] does not depend on the order of the input. *)
Lemma order_Permutation (points points' : list point) :
  points ≡ₚ points' → order points = order points'.
Proof.
  intros Hperm.
  apply (StronglySorted_unique_strong lexico);
    [|apply order_StronglySorted..|].
  - intros a b _ _ Hab Hba. destruct (irreflexivity lexico a). by trans b.
  - apply NoDup_Permutation; [apply NoDup_order..|].
    intros k. rewrite !elem_of_order. by setoid_rewrite Hperm.
Qed.

(** [max_point], the last key of [order], is the greatest key. *)
Lemma last_order_greatest (points : list point) (max_point : value * value) :
  last (order points) = Some max_point →
  max_point ∈ order points ∧
  ∀ k, k ∈ order points → k = max_point ∨ lexico k max_point.
Proof.
  intros Hlast. apply last_Some in Hlast as [l Hl].
  pose proof (order_StronglySorted points) as Hs. rewrite Hl in Hs |- *.
  split; [set_solver|]. intros k Hk.
  destruct (proj1 (elem_of_app _ _ _) Hk) as [Hk'|Hk'].
  - right. eapply StronglySorted_app_1_elem_of; [done..|]. apply list_elem_of_singleton. done.
  - left. by apply list_elem_of_singleton in Hk'.
Qed.

End strict.

(** ** The loop *)

Lemma merge_loop_snoc (max_point : value * value) (ps : list point) (p : point) :
  merge_loop max_point (ps ++ [p]) =
  merge_point max_point (merge_loop max_point ps) p.
Proof. unfold merge_loop. by rewrite foldl_app. Qed.

Lemma occurrences_snoc (k : value * value) (ps : list point) (p : point) :
  occurrences k (ps ++ [p]) =
  occurrences k ps ++ (if decide (point_key p = k) then [p] else []).
Proof.
  unfold occurrences. by rewrite filter_app.
Qed.

(** The four cases of a turn of the loop. *)
Lemma merge_point_max (max_point : value * value)
    (output : gmap (value * value) (list value)) (p : point) :
  point_key p = max_point →
  merge_point max_point output p = <[max_point := row6 p]> output.
Proof. intros Hk. unfold merge_point. rewrite decide_True by done. by rewrite Hk. Qed.

Lemma merge_point_first (max_point : value * value)
    (output : gmap (value * value) (list value)) (p : point) :
  point_key p ≠ max_point → output !! point_key p = None →
  merge_point max_point output p = <[point_key p := row4 p]> output.
Proof.
  intros Hk Hnone. unfold merge_point. rewrite decide_False by done.
  by rewrite Hnone.
Qed.

Lemma merge_point_second (max_point : value * value)
    (output : gmap (value * value) (list value)) (p : point) (row : list value) :
  point_key p ≠ max_point → output !! point_key p = Some row →
  (length row < 6)%nat →
  merge_point max_point output p =
  <[point_key p := row ++ [Viscosity p; Shear_Stress p]]> output.
Proof.
  intros Hk Hrow Hlen. unfold merge_point. rewrite decide_False by done.
  rewrite Hrow. by rewrite decide_True by done.
Qed.

Lemma merge_point_third (max_point : value * value)
    (output : gmap (value * value) (list value)) (p : point) (row : list value) :
  point_key p ≠ max_point → output !! point_key p = Some row →
  (6 ≤ length row)%nat →
  merge_point max_point output p = output.
Proof.
  intros Hk Hrow Hlen. unfold merge_point. rewrite decide_False by done.
  rewrite Hrow. by rewrite decide_False by lia.
Qed.

(** A turn leaves the entries of the other keys as they are. *)
Lemma merge_point_other (max_point k : value * value)
    (output : gmap (value * value) (list value)) (p : point) :
  point_key p ≠ k → merge_point max_point output p !! k = output !! k.
Proof.
  intros Hk. unfold merge_point.
  destruct (decide (point_key p = max_point)).
  { by rewrite lookup_insert_ne. }
  destruct (output !! point_key p) as [row|] eqn:Hrow.
  - destruct (decide _); [|done]. by rewrite lookup_insert_ne.
  - by rewrite lookup_insert_ne.
Qed.

(** The entry of [max_point]: the row of its last record, doubled. *)
Lemma merge_loop_max (max_point : value * value) (ps : list point) :
  merge_loop max_point ps !! max_point = row6 <$> last (occurrences max_point ps).
Proof.
  induction ps as [|p ps IH] using rev_ind; [done|].
  rewrite merge_loop_snoc, occurrences_snoc.
  destruct (decide (point_key p = max_point)) as [Hk|Hk].
  - rewrite merge_point_max by done. rewrite lookup_insert_eq.
    by rewrite last_snoc.
  - rewrite merge_point_other by done. by rewrite app_nil_r.
Qed.

(** The entry of any other key: its first record, completed by the second. *)
Lemma merge_loop_other (max_point k : value * value) (ps : list point) :
  k ≠ max_point →
  merge_loop max_point ps !! k =
    match occurrences k ps with
    | [] => None
    | [p1] => Some (row4 p1)
    | p1 :: p2 :: _ => Some (row4 p1 ++ [Viscosity p2; Shear_Stress p2])
    end.
Proof.
  intros Hne. induction ps as [|p ps IH] using rev_ind; [done|].
  rewrite merge_loop_snoc, occurrences_snoc.
  destruct (decide (point_key p = k)) as [Hk|Hk].
  - subst k. destruct (occurrences (point_key p) ps) as [|p1 [|p2 rest]]; simpl.
    + rewrite merge_point_first by done. by rewrite lookup_insert_eq.
    + rewrite (merge_point_second _ _ _ (row4 p1)) by (done || simpl; lia).
      by rewrite lookup_insert_eq.
    + rewrite (merge_point_third _ _ _ _ Hne IH) by (simpl; lia). done.
  - rewrite merge_point_other by done. by rewrite app_nil_r.
Qed.

(** ** The rows *)

Lemma mapM_lookup_Ok (output : gmap (value * value) (list value))
    (l : list (value * value)) :
  (∀ k, k ∈ l → is_Some (output !! k)) →
  ∃ rows,
    mapM (λ index, or_raise KeyError (output !! index)) l = Ok rows ∧
    Forall2 (λ k row, output !! k = Some row) l rows.
Proof.
  induction l as [|k l IH]; intros Hall.
  - exists []. split; [done|constructor].
  - destruct IH as (rows & Hrows & Hall2).
    { intros k' Hk'. apply Hall. by right. }
    destruct (Hall k) as [row Hrow]; [by left|].
    exists (row :: rows). split; [|by constructor].
    simpl. rewrite Hrow. simpl.
    change (mapM ?f l) with (mapM f l) in Hrows. by rewrite Hrows.
Qed.

Lemma occurrences_order (points : list point) (k : value * value) :
  k ∈ order points → occurrences k (sorted_points points) ≠ [].
Proof.
  intros Hk Hnil. apply elem_of_order in Hk as (p & Hp & Hkp).
  assert (p ∈ occurrences k (sorted_points points)) as Hin.
  { apply list_elem_of_filter. split; [done|].
    by rewrite sorted_points_Permutation. }
  rewrite Hnil in Hin. by apply elem_of_nil in Hin.
Qed.

Lemma merge_loop_order (points : list point) (max_point k : value * value) :
  k ∈ order points →
  is_Some (merge_loop max_point (sorted_points points) !! k).
Proof.
  intros Hk. apply occurrences_order in Hk.
  destruct (decide (k = max_point)) as [->|Hne].
  - rewrite merge_loop_max.
    destruct (last _) eqn:Hlast; [by eexists|]. by apply last_None in Hlast.
  - rewrite merge_loop_other by done.
    destruct (occurrences _ _) as [|p1 [|p2 rest]]; [done|by eexists..].
Qed.

(** On a list that is not empty the merger returns, one row per key of
    [order], the entry of the loop for that key. *)
Lemma calculate_rates_rows (points : list point) :
  points ≠ [] →
  ∃ max_point rows,
    last (order points) = Some max_point ∧
    calculate_rates points = Ok rows ∧
    Forall2 (λ k row,
      merge_loop max_point (sorted_points points) !! k = Some row)
      (order points) rows.
Proof.
  intros Hne. destruct (last_order_is_Some points Hne) as [M HM].
  destruct (mapM_lookup_Ok (merge_loop M (sorted_points points)) (order points))
    as (rows & Hrows & Hall).
  { intros k. apply merge_loop_order. }
  exists M, rows. repeat split; [done| |done].
  unfold calculate_rates. rewrite HM. simpl. done.
Qed.

Lemma calculate_rates_Ok_inv (points : list point) (rows : list (list value)) :
  calculate_rates points = Ok rows → points ≠ [].
Proof.
  intros Hok ->. unfold calculate_rates in Hok.
  by rewrite (proj2 (order_nil []) eq_refl) in Hok.
Qed.

Lemma calculate_rates_lookup (points : list point) (rows : list (list value))
    (max_point k : value * value) (i : nat) :
  calculate_rates points = Ok rows →
  last (order points) = Some max_point →
  order points !! i = Some k →
  rows !! i = merge_loop max_point (sorted_points points) !! k ∧
  is_Some (rows !! i).
Proof.
  intros Hok Hmax Hi.
  destruct (calculate_rates_rows points) as (M & rows' & HM & Hok' & Hall).
  { by eapply calculate_rates_Ok_inv. }
  rewrite Hok in Hok'. injection Hok' as <-.
  rewrite Hmax in HM. injection HM as <-.
  destruct (Forall2_lookup_l _ _ _ _ _ Hall Hi) as (row & Hrow & Hk).
  rewrite Hrow, Hk. eauto.
Qed.

(** What an entry of the loop looks like. *)
Lemma merge_loop_entry (max_point k : value * value) (ps : list point)
    (row : list value) :
  merge_loop max_point ps !! k = Some row →
  row_key row = Some k ∧
  (length row = 4%nat ∨ length row = 6%nat) ∧
  (k = max_point → length row = 6%nat).
Proof.
  destruct (decide (k = max_point)) as [->|Hne].
  - rewrite merge_loop_max.
    destruct (last _) as [p|] eqn:Hlast; [|done]. intros [= <-].
    assert (p ∈ occurrences max_point ps) as Hp.
    { apply last_Some in Hlast as [l ->]. set_solver. }
    apply list_elem_of_filter in Hp as [<- _]. auto.
  - rewrite merge_loop_other by done.
    destruct (occurrences k ps) as [|p1 rest] eqn:Hocc; [done|].
    assert (point_key p1 = k) as <-.
    { assert (p1 ∈ occurrences k ps) as Hp by (rewrite Hocc; left).
      by apply list_elem_of_filter in Hp as [? _]. }
    destruct rest as [|p2 rest]; intros [= <-]; simpl; repeat split; auto;
      by intros ?.
Qed.

Lemma rows_row_key (output : gmap (value * value) (list value))
    (ks : list (value * value)) (rows : list (list value)) :
  Forall2 (λ k row, output !! k = Some row ∧ row_key row = Some k) ks rows →
  row_key <$> rows = Some <$> ks.
Proof.
  induction 1 as [|k row ks rows [_ Hk] _ IH]; [done|].
  rewrite !fmap_cons. by rewrite Hk, IH.
Qed.

(** ** The claims on the merger *)

(** C10.  The merger raises [IndexError], from [order[-1]], exactly on
    the empty list of records; on every other list it returns rows. *)
Theorem calculate_rates_empty (points : list point) :
  (calculate_rates points = Raise IndexError ↔ points = []) ∧
  (points = [] ∨ ∃ rows, calculate_rates points = Ok rows).
Proof.
  destruct (decide (points = [])) as [->|Hne].
  - assert (order [] = []) as Hnil by by apply order_nil.
    split; [|by left]. split; [done|]. intros _.
    unfold calculate_rates. by rewrite Hnil.
  - destruct (calculate_rates_rows points Hne) as (M & rows & _ & Hok & _).
    split; [|by eauto]. rewrite Hok. by split.
Qed.

Lemma StronglySorted_filter {A} (R : relation A) (P : A → Prop)
    `{∀ x, Decision (P x)} (l : list A) :
  StronglySorted R l → StronglySorted R (filter P l).
Proof.
  induction 1 as [|x l Hl IH Hall]; [constructor|].
  rewrite filter_cons. destruct (decide (P x)); [|done].
  constructor; [done|]. apply Forall_forall. intros y [_ Hy]%list_elem_of_filter.
  by apply (proj1 (Forall_forall _ _) Hall).
Qed.

(** The records of a key, as the loop meets them: those of the input, in
    ascending order of their timestamps. *)
Lemma occurrences_walk (points : list point) (k : value * value) :
  occurrences k (sorted_points points) ≡ₚ occurrences k points ∧
  StronglySorted (λ p q, DT p ≤ DT q) (occurrences k (sorted_points points)).
Proof.
  split.
  - unfold occurrences. by rewrite sorted_points_Permutation.
  - apply StronglySorted_filter, sorted_points_Sorted.
Qed.

(** C2.  For a group key other than [max_point]: a record that finds no
    entry for its key creates the 4-value entry (speed, shear rate,
    viscosity, shear stress); a record that finds an entry of fewer than
    6 values appends its viscosity and shear stress to it.  The loop
    meets the records of the key in ascending order of their
    timestamps, wherever they stand in the input.  So in the rows
    returned, the row of a key with one record is that 4-value entry,
    and the row of a key with two or more records is the entry of the
    chronologically first one followed, as values 5 and 6, by the
    viscosity and shear stress of the chronologically second: when the
    input has two records of the key, the earlier one gives values 1 to
    4 and the later one values 5 and 6. *)
Theorem calculate_rates_pairs (points : list point) (rows : list (list value))
    (max_point k : value * value) :
  calculate_rates points = Ok rows →
  last (order points) = Some max_point →
  k ≠ max_point →
  (∀ output p, point_key p = k → output !! k = None →
     merge_point max_point output p = <[k := row4 p]> output) ∧
  (∀ output p row, point_key p = k → output !! k = Some row →
     (length row < 6)%nat →
     merge_point max_point output p =
       <[k := row ++ [Viscosity p; Shear_Stress p]]> output) ∧
  occurrences k (sorted_points points) ≡ₚ occurrences k points ∧
  StronglySorted (λ p q, DT p ≤ DT q) (occurrences k (sorted_points points)) ∧
  (∀ p1 rest, occurrences k (sorted_points points) = p1 :: rest →
     ∀ q, q ∈ points → point_key q = k → DT p1 ≤ DT q) ∧
  (∀ p1 p2 rest, occurrences k (sorted_points points) = p1 :: p2 :: rest →
     ∀ q, q ∈ rest → DT p2 ≤ DT q) ∧
  (∀ i, order points !! i = Some k →
     (∀ p1, occurrences k (sorted_points points) = [p1] →
        rows !! i = Some (row4 p1)) ∧
     (∀ p1 p2 rest, occurrences k (sorted_points points) = p1 :: p2 :: rest →
        rows !! i = Some (row4 p1 ++ [Viscosity p2; Shear_Stress p2]) ∧
        length (row4 p1 ++ [Viscosity p2; Shear_Stress p2]) = 6%nat) ∧
     (∀ p, occurrences k points = [p] → rows !! i = Some (row4 p)) ∧
     (∀ p q, occurrences k points ≡ₚ [p; q] → DT p < DT q →
        rows !! i =
          Some [Speed p; Shear_Rate p; Viscosity p; Shear_Stress p;
                Viscosity q; Shear_Stress q])).
Proof.
  intros Hok Hmax Hne.
  destruct (occurrences_walk points k) as [Hperm Hsorted].
  split; [|split; [|split; [done|split; [done|split; [|split]]]]].
  - intros output p <- Hnone. by apply merge_point_first.
  - intros output p row <- Hrow Hlen. by apply merge_point_second.
  - intros p1 rest Hocc q Hq Hkq.
    assert (q ∈ occurrences k (sorted_points points)) as Hin.
    { rewrite Hperm. by apply list_elem_of_filter. }
    rewrite Hocc in Hin, Hsorted.
    apply StronglySorted_cons in Hsorted as [Hall _].
    apply elem_of_cons in Hin as [->|Hin]; [lia|].
    by apply (proj1 (Forall_forall _ _) Hall).
  - intros p1 p2 rest Hocc q Hq. rewrite Hocc in Hsorted.
    apply StronglySorted_cons in Hsorted as [_ Hsorted].
    apply StronglySorted_cons in Hsorted as [Hall _].
    by apply (proj1 (Forall_forall _ _) Hall).
  - intros i Hi.
    destruct (calculate_rates_lookup _ _ _ _ _ Hok Hmax Hi) as [-> _].
    rewrite merge_loop_other by done. split; [|split; [|split]].
    + by intros p1 ->.
    + by intros p1 p2 rest ->.
    + intros p Hp. rewrite Hp in Hperm.
      by apply Permutation_singleton_r in Hperm as ->.
    + intros p q Hpq Hlt. rewrite Hpq in Hperm. symmetry in Hperm.
      apply Permutation_length_2_inv in Hperm as [Hocc|Hocc];
        rewrite Hocc in Hsorted |- *; [done|].
      apply StronglySorted_cons in Hsorted as [Hall _].
      apply Forall_cons in Hall as [Hle _]. lia.
Qed.

(** C7.  For a group key other than [max_point], a record that finds an
    entry of 6 values changes nothing; so the row of a key with three or
    more records holds the first record and the viscosity and shear
    stress of the second, and nothing of the later ones. *)
Theorem calculate_rates_third_dropped (points : list point)
    (rows : list (list value)) (max_point k : value * value) :
  calculate_rates points = Ok rows →
  last (order points) = Some max_point →
  k ≠ max_point →
  (∀ output p row, point_key p = k → output !! k = Some row →
     (6 ≤ length row)%nat → merge_point max_point output p = output) ∧
  (∀ i p1 p2 p3 rest,
     order points !! i = Some k →
     occurrences k (sorted_points points) = p1 :: p2 :: p3 :: rest →
     rows !! i =
       Some [Speed p1; Shear_Rate p1; Viscosity p1; Shear_Stress p1;
             Viscosity p2; Shear_Stress p2]).
Proof.
  intros Hok Hmax Hne. split.
  - intros output p row <- Hrow Hlen. by eapply merge_point_third.
  - intros i p1 p2 p3 rest Hi Hocc.
    destruct (calculate_rates_lookup _ _ _ _ _ Hok Hmax Hi) as [-> _].
    rewrite merge_loop_other by done. by rewrite Hocc.
Qed.

Section strict_claims.
Context `{!StrictOrder (@lexico value _)}.

Lemma max_point_greatest (points : list point) (max_point : value * value) :
  last (order points) = Some max_point →
  ∀ p, p ∈ points →
    point_key p = max_point ∨ lexico (point_key p) max_point.
Proof.
  intros Hmax p Hp. apply last_order_greatest in Hmax as [_ Hmax].
  apply Hmax, elem_of_order. eauto.
Qed.

(** C1.  [max_point] is the greatest group key of the input under the
    ordering of tuples.  A record of that key always writes, over
    whatever entry the key had, the 6-value row (speed, shear rate,
    viscosity, shear stress, viscosity, shear stress) of its own reading;
    the row returned for the key, the last one, is the one written by
    its chronologically last record. *)
Theorem calculate_rates_max_point (points : list point)
    (max_point : value * value) :
  last (order points) = Some max_point →
  (∃ p, p ∈ points ∧ point_key p = max_point) ∧
  (∀ p, p ∈ points →
     point_key p = max_point ∨ lexico (point_key p) max_point) ∧
  (∀ output p, point_key p = max_point →
     merge_point max_point output p = <[max_point := row6 p]> output ∧
     merge_point max_point output p !! max_point =
       Some [Speed p; Shear_Rate p; Viscosity p; Shear_Stress p;
             Viscosity p; Shear_Stress p]) ∧
  ∃ p rows,
    last (occurrences max_point (sorted_points points)) = Some p ∧
    calculate_rates points = Ok rows ∧
    last rows = Some (row6 p).
Proof.
  intros Hmax. split; [|split; [|split]].
  - apply elem_of_order. by apply last_order_greatest in Hmax as [? _].
  - by apply max_point_greatest.
  - intros output p Hk. rewrite merge_point_max by done.
    by rewrite lookup_insert_eq.
  - assert (points ≠ []) as Hne.
    { intros ->. by rewrite (proj2 (order_nil []) eq_refl) in Hmax. }
    destruct (calculate_rates_rows points Hne) as (M & rows & HM & Hok & Hall).
    simplify_eq. pose proof Hmax as Hmax'.
    apply last_Some in Hmax' as [ks Hks]. rewrite Hks in Hall.
    apply Forall2_app_inv_l in Hall as (rows1 & rows2 & _ & Hall2 & ->).
    apply Forall2_cons_inv_l in Hall2 as (row & rows3 & Hrow & Hnil & ->).
    apply Forall2_nil_inv_l in Hnil as ->.
    rewrite merge_loop_max in Hrow.
    destruct (last (occurrences _ _)) as [p|]; [|done].
    injection Hrow as <-. exists p, (rows1 ++ [row6 p]).
    by rewrite last_snoc.
Qed.

(** C5.  On a list that is not empty the rows returned come in strictly
    ascending order of their group keys (speed first, then shear rate),
    one row per key, and every permutation of the list yields rows with
    the same keys in the same order. *)
Theorem calculate_rates_order (points points' : list point) :
  points ≠ [] → points ≡ₚ points' →
  ∃ rows rows' keys,
    calculate_rates points = Ok rows ∧
    calculate_rates points' = Ok rows' ∧
    row_key <$> rows = Some <$> keys ∧
    StronglySorted lexico keys ∧
    (∀ k, k ∈ keys ↔ ∃ p, p ∈ points ∧ point_key p = k) ∧
    row_key <$> rows' = row_key <$> rows.
Proof.
  intros Hne Hperm.
  assert (points' ≠ []) as Hne'.
  { intros ->. by apply Permutation_nil_r in Hperm. }
  destruct (calculate_rates_rows points Hne) as (M & rows & HM & Hok & Hall).
  destruct (calculate_rates_rows points' Hne') as (M' & rows' & HM' & Hok' & Hall').
  assert (∀ ps N rs,
    Forall2 (λ k row, merge_loop N (sorted_points ps) !! k = Some row)
      (order ps) rs → row_key <$> rs = Some <$> order ps) as Hkeys.
  { intros ps N rs HF.
    apply (rows_row_key (merge_loop N (sorted_points ps))).
    eapply Forall2_impl; [exact HF|].
    intros k row Hrow. split; [done|].
    by destruct (merge_loop_entry _ _ _ _ Hrow) as [? _]. }
  exists rows, rows', (order points). repeat split; try done.
  - eauto.
  - apply order_StronglySorted.
  - by apply elem_of_order.
  - by apply elem_of_order.
  - rewrite (Hkeys _ _ _ Hall), (Hkeys _ _ _ Hall').
    by rewrite (order_Permutation points points').
Qed.

(** C6.  On a list that is not empty every row returned has 4 or 6
    values, and the row of the greatest group key, which is there, has
    6. *)
Theorem calculate_rates_row_lengths (points : list point) :
  points ≠ [] →
  ∃ rows max_point,
    calculate_rates points = Ok rows ∧
    (∀ p, p ∈ points →
       point_key p = max_point ∨ lexico (point_key p) max_point) ∧
    Forall (λ row, length row = 4%nat ∨ length row = 6%nat) rows ∧
    (∃ row, row ∈ rows ∧ row_key row = Some max_point) ∧
    (∀ row, row ∈ rows → row_key row = Some max_point → length row = 6%nat).
Proof.
  intros Hne.
  destruct (calculate_rates_rows points Hne) as (M & rows & HM & Hok & Hall).
  exists rows, M. split; [done|]. split; [by apply max_point_greatest|].
  assert (∀ row, row ∈ rows →
    ∃ k, merge_loop M (sorted_points points) !! k = Some row) as Hrows.
  { intros row Hrow. apply list_elem_of_lookup in Hrow as [i Hi].
    destruct (Forall2_lookup_r _ _ _ _ _ Hall Hi) as (k & _ & Hk). eauto. }
  split; [|split].
  - apply Forall_forall. intros row Hrow.
    destruct (Hrows row Hrow) as [k Hk].
    by apply merge_loop_entry in Hk as (_ & ? & _).
  - pose proof HM as HM'. apply last_Some in HM' as [ks Hks].
    assert (order points !! length ks = Some M) as Hi.
    { rewrite Hks. by rewrite list_lookup_middle. }
    destruct (Forall2_lookup_l _ _ _ _ _ Hall Hi) as (row & Hrow & Hk).
    exists row. split; [by eapply list_elem_of_lookup_2|].
    by apply merge_loop_entry in Hk as [? _].
  - intros row Hrow Hkey. destruct (Hrows row Hrow) as [k Hk].
    apply merge_loop_entry in Hk as (Hk & _ & Hlen).
    apply Hlen. congruence.
Qed.

End strict_claims.

End Datajoin.

Global Arguments VInt {float} n.
Global Arguments VFloat {float} x.
Global Arguments VStr {float} s.
Global Arguments VDateTime {float} t.

(** * Strings *)

Lemma app_cons (c : ascii) (s t : string) :
  String c s +:+ t = String c (s +:+ t).
Proof. done. Qed.

Lemma app_nil_l (s : string) : EmptyString +:+ s = s.
Proof. done. Qed.

Lemma app_nil_r (s : string) : s +:+ EmptyString = s.
Proof. induction s as [|c s IH]; [done|]. by rewrite app_cons, IH. Qed.

Lemma app_assoc (s t u : string) : (s +:+ t) +:+ u = s +:+ (t +:+ u).
Proof. induction s as [|c s IH]; [done|]. by rewrite !app_cons, IH. Qed.

Lemma app_nil_inv (s t : string) :
  s +:+ t = EmptyString → s = EmptyString ∧ t = EmptyString.
Proof. by destruct s. Qed.

(** * The coercer on Python's readers *)


(** ** Characters *)




(** ** Texts without white space and underscores *)









(** ** Digits *)


Lemma all_digits_digits_from (acc : Z) (s : string) :
  all_digits s = true → ∃ v, digits_from acc s = Some v.
Proof.
  revert acc. induction s as [|c s IH]; intros acc; simpl; [by eauto|].
  unfold is_digit. destruct (digit_of c) as [d|]; [|done]. apply IH.
Qed.






(** ** Plain literals *)








(** ** The claim on the coercer *)




(** * Examples *)

(** An export of the instrument, cut down: the timestamp cells in row 7,
    then the field names, a row of units and the row of readings. *)
Definition example_grid : list (list string) :=
  [ ["Brookfield"]; []; []; []; []; []; [];
    ["Date"; "Time"; "12"; "30"];
    ["Speed"; "Shear Rate"; "Viscosity"];
    ["RPM"; "1/s"];
    ["100"; "13.2"; "EEEE"; "7"] ]%string.

Definition example_record : gmap string (pyval (Z * nat)) :=
  <["DT" := VDateTime 1036830]>
    (<["Speed" := VInt 100]>
       (<["Shear Rate" := VFloat (132, 1%nat)]>
          (<["Viscosity" := VStr "EEEE"]> ∅)))%string.

Lemma example_grid_record :
  read_grid _ dec_int dec_float dec_datetime example_grid = Ok example_record.
Proof. vm_compute. reflexivity. Qed.

(** Five records of a ramp over three speeds, out of order. *)
Definition example_points : list (@point Z) :=
  [ mkPoint 3 100 50 11 12;
    mkPoint 2 200 80 9 10;
    mkPoint 1 100 50 7 8;
    mkPoint 4 100 50 13 14;
    mkPoint 5 10 50 1 2 ].

Definition example_rows : list (list Z) :=
  [ [10; 50; 1; 2];
    [100; 50; 7; 8; 11; 12];
    [200; 80; 9; 10; 9; 10] ].

Lemma example_points_rows : calculate_rates example_points = Ok example_rows.
Proof. vm_compute. reflexivity. Qed.

(** Two records of one key, the later one first, and the record of the
    greatest key. *)
Definition example_pair_points : list (@point Z) :=
  [ mkPoint 3 100 50 11 12;
    mkPoint 2 200 80 9 10;
    mkPoint 1 100 50 7 8 ].

Definition example_pair_rows : list (list Z) :=
  [ [100; 50; 7; 8; 11; 12];
    [200; 80; 9; 10; 9; 10] ].

Lemma example_pair_points_rows :
  calculate_rates example_pair_points = Ok example_pair_rows.
Proof. vm_compute. reflexivity. Qed.

Lemma example_no_points : calculate_rates (value := Z) [] = Raise IndexError.
Proof. vm_compute. reflexivity. Qed.

Lemma example_points_order :
  order example_points = [(10, 50); (100, 50); (200, 80)].
Proof. vm_compute. reflexivity. Qed.

Lemma example_points_occurrences :
  occurrences (100, 50) (sorted_points example_points) =
  [mkPoint 1 100 50 7 8; mkPoint 3 100 50 11 12; mkPoint 4 100 50 13 14].
Proof. vm_compute. reflexivity. Qed.

(** ** The reader on the example *)

Lemma read_grid_record_witness :
  ∃ names values row d t dt,
    example_grid !! (length example_grid - 3)%nat = Some names ∧
    example_grid !! (length example_grid - 1)%nat = Some values ∧
    example_grid !! 7%nat = Some row ∧
    row !! 2%nat = Some d ∧ row !! 3%nat = Some t ∧
    dec_datetime (d +:+ " " +:+ t) = Some dt ∧
    example_record !! "DT"%string = Some (VDateTime dt) ∧
    (∀ i name cell,
       names !! i = Some name → values !! i = Some cell →
       (∀ j, (i < j < length values)%nat → names !! j ≠ Some name) →
       example_record !! name =
         Some (transform_value _ dec_int dec_float cell)) ∧
    (∀ name, is_Some (example_record !! name) →
       name = "DT"%string ∨
       ∃ i, names !! i = Some name ∧ (i < length values)%nat).
Proof.
  apply (read_grid_record _ dec_int dec_float dec_datetime example_grid).
  vm_compute. reflexivity.
Defined.

(** The names of the record are not those of the second row from the
    end: on the example that row holds the units, and the record has no
    entry for the unit above the first reading. *)
Lemma read_grid_second_to_last_counterexample :
  ∃ record,
    read_grid _ dec_int dec_float dec_datetime example_grid = Ok record ∧
    py_index example_grid (-2) = Ok ["RPM"; "1/s"]%string ∧
    py_index example_grid (-1) = Ok ["100"; "13.2"; "EEEE"; "7"]%string ∧
    record !! "RPM"%string = None ∧
    record !! "Speed"%string = Some (VInt 100).
Proof.
  exists example_record. repeat split; vm_compute; reflexivity.
Qed.

Lemma read_grid_failures_witness :
  (read_grid _ dec_int dec_float dec_datetime (take 7 example_grid) =
     Raise IndexError) ∧
  (read_grid _ dec_int dec_float dec_datetime
     (<[7%nat := ["Date"; "Time"; "12"]%string]> example_grid) =
     Raise IndexError) ∧
  (read_grid _ dec_int dec_float dec_datetime
     (<[7%nat := ["Date"; "Time"; "12"; "noon"]%string]> example_grid) =
     Raise ValueError) ∧
  (∃ record,
     read_grid _ dec_int dec_float dec_datetime example_grid = Ok record).
Proof.
  split; [|split; [|split]].
  - destruct (read_grid_failures _ dec_int dec_float dec_datetime
                (take 7 example_grid)) as (Hshort & _).
    apply Hshort. simpl. lia.
  - destruct (read_grid_failures _ dec_int dec_float dec_datetime
                (<[7%nat := ["Date"; "Time"; "12"]%string]> example_grid))
      as (_ & Hcells & _).
    apply (Hcells ["Date"; "Time"; "12"]%string); [reflexivity|simpl; lia].
  - destruct (read_grid_failures _ dec_int dec_float dec_datetime
                (<[7%nat := ["Date"; "Time"; "12"; "noon"]%string]> example_grid))
      as (_ & _ & Hparse & _).
    apply (Hparse ["Date"; "Time"; "12"; "noon"]%string "12" "noon")%string;
      reflexivity.
  - destruct (read_grid_failures _ dec_int dec_float dec_datetime example_grid)
      as (_ & _ & _ & Hragged).
    apply (Hragged ["Date"; "Time"; "12"; "30"]%string "12" "30" 1036830
             ["Speed"; "Shear Rate"; "Viscosity"]%string
             ["100"; "13.2"; "EEEE"; "7"]%string)%string;
      try reflexivity.
    simpl. rewrite !elem_of_cons, elem_of_nil.
    intros [?|[?|[?|[]]]]; discriminate.
Defined.

(** Trailing rows of different lengths do not make the reader fail: on
    the example the names row has 3 cells, the row before the last has 2
    and the last has 4, and a record is returned. *)
Lemma read_grid_ragged_counterexample :
  ∃ names units values record,
    py_index example_grid (-3) = Ok names ∧
    py_index example_grid (-2) = Ok units ∧
    py_index example_grid (-1) = Ok values ∧
    length names ≠ length values ∧
    length units ≠ length values ∧
    read_grid _ dec_int dec_float dec_datetime example_grid = Ok record.
Proof.
  exists ["Speed"; "Shear Rate"; "Viscosity"]%string, ["RPM"; "1/s"]%string,
    ["100"; "13.2"; "EEEE"; "7"]%string, example_record.
  repeat split; try (vm_compute; reflexivity); simpl; lia.
Qed.

(** ** The merger on the example *)

Lemma calculate_rates_max_point_witness :
  (∃ p, p ∈ example_points ∧ point_key p = (200, 80)) ∧
  (∀ p, p ∈ example_points →
     point_key p = (200, 80) ∨ lexico (point_key p) (200, 80)) ∧
  (∀ output p, point_key p = (200, 80) →
     merge_point (200, 80) output p = <[(200, 80) := row6 p]> output ∧
     merge_point (200, 80) output p !! (200, 80) =
       Some [Speed p; Shear_Rate p; Viscosity p; Shear_Stress p;
             Viscosity p; Shear_Stress p]) ∧
  ∃ p rows,
    last (occurrences (200, 80) (sorted_points example_points)) = Some p ∧
    calculate_rates example_points = Ok rows ∧
    last rows = Some (row6 p).
Proof.
  apply (calculate_rates_max_point example_points (200, 80)).
  vm_compute. reflexivity.
Defined.

(** Two records of the key (100, 50), the later one given first: the
    loop meets the earlier one first, and the row has its reading as
    values 1 to 4 and the viscosity and shear stress of the later one as
    values 5 and 6. *)
Lemma calculate_rates_pairs_witness :
  occurrences (100, 50) example_pair_points =
    [mkPoint 3 100 50 11 12; mkPoint 1 100 50 7 8] ∧
  occurrences (100, 50) (sorted_points example_pair_points) ≡ₚ
    occurrences (100, 50) example_pair_points ∧
  StronglySorted (λ p q, DT p ≤ DT q)
    (occurrences (100, 50) (sorted_points example_pair_points)) ∧
  (∀ q, q ∈ example_pair_points → point_key q = (100, 50) →
     DT (mkPoint 1 100 50 7 8) ≤ DT q) ∧
  example_pair_rows !! 0%nat =
    Some (row4 (mkPoint 1 100 50 7 8) ++
          [Viscosity (mkPoint 3 100 50 11 12);
           Shear_Stress (mkPoint 3 100 50 11 12)]) ∧
  example_pair_rows !! 0%nat = Some [100; 50; 7; 8; 11; 12].
Proof.
  destruct (calculate_rates_pairs example_pair_points example_pair_rows
              (200, 80) (100, 50))
    as (_ & _ & Hperm & Hsorted & Hfirst & _ & Hrows).
  - vm_compute. reflexivity.
  - vm_compute. reflexivity.
  - discriminate.
  - destruct (Hrows 0%nat) as (_ & Hsecond & _ & Hpair).
    { vm_compute. reflexivity. }
    split; [vm_compute; reflexivity|].
    split; [exact Hperm|]. split; [exact Hsorted|]. split; [|split].
    + apply (Hfirst (mkPoint 1 100 50 7 8) [mkPoint 3 100 50 11 12]).
      vm_compute. reflexivity.
    + apply (Hsecond (mkPoint 1 100 50 7 8) (mkPoint 3 100 50 11 12) []).
      vm_compute. reflexivity.
    + apply (Hpair (mkPoint 1 100 50 7 8) (mkPoint 3 100 50 11 12)).
      * change (occurrences (100, 50) example_pair_points)
          with [mkPoint 3 100 50 11 12; mkPoint 1 100 50 7 8].
        apply perm_swap.
      * simpl. lia.
Defined.

Lemma calculate_rates_third_dropped_witness :
  (∀ output p row, point_key p = (100, 50) → output !! (100, 50) = Some row →
     (6 ≤ length row)%nat → merge_point (200, 80) output p = output) ∧
  (∀ i p1 p2 p3 rest,
     order example_points !! i = Some (100, 50) →
     occurrences (100, 50) (sorted_points example_points) =
       p1 :: p2 :: p3 :: rest →
     example_rows !! i =
       Some [Speed p1; Shear_Rate p1; Viscosity p1; Shear_Stress p1;
             Viscosity p2; Shear_Stress p2]).
Proof.
  apply (calculate_rates_third_dropped example_points example_rows
           (200, 80) (100, 50)).
  - vm_compute. reflexivity.
  - vm_compute. reflexivity.
  - discriminate.
Defined.

Lemma calculate_rates_order_witness :
  ∃ rows rows' keys,
    calculate_rates example_points = Ok rows ∧
    calculate_rates (reverse example_points) = Ok rows' ∧
    row_key <$> rows = Some <$> keys ∧
    StronglySorted lexico keys ∧
    (∀ k, k ∈ keys ↔ ∃ p, p ∈ example_points ∧ point_key p = k) ∧
    row_key <$> rows' = row_key <$> rows.
Proof.
  apply (calculate_rates_order example_points (reverse example_points)).
  - discriminate.
  - symmetry. apply reverse_Permutation.
Defined.

Lemma calculate_rates_row_lengths_witness :
  ∃ rows max_point,
    calculate_rates example_points = Ok rows ∧
    (∀ p, p ∈ example_points →
       point_key p = max_point ∨ lexico (point_key p) max_point) ∧
    Forall (λ row, length row = 4%nat ∨ length row = 6%nat) rows ∧
    (∃ row, row ∈ rows ∧ row_key row = Some max_point) ∧
    (∀ row, row ∈ rows → row_key row = Some max_point → length row = 6%nat).
Proof.
  apply (calculate_rates_row_lengths example_points). discriminate.
Defined.

(** * The rest of the program: files, records in order, output *)

(** ** File names *)

(** [fnmatch.fnmatch(name, pat)] where file names keep their case (POSIX),
    for patterns made of literal characters, [*] (any run of characters)
    and [?] (any one character): the whole name has to match. *)
Fixpoint glob_match (pat : string) : string → bool :=
  match pat with
  | EmptyString => λ name, if name is EmptyString then true else false
  | String c pat' =>
      if Ascii.eqb c "*" then
        fix star (name : string) : bool :=
          glob_match pat' name ||
          match name with
          | EmptyString => false
          | String _ name' => star name'
          end
      else if Ascii.eqb c "?" then
        λ name,
          match name with
          | EmptyString => false
          | String _ name' => glob_match pat' name'
          end
      else
        λ name,
          match name with
          | EmptyString => false
          | String d name' => Ascii.eqb c d && glob_match pat' name'
          end
  end.

Definition fnmatch (name pat : string) : bool := glob_match pat name.

(** A pattern without [*] and [?]. *)
Fixpoint is_literal (pat : string) : bool :=
  match pat with
  | EmptyString => true
  | String c pat' =>
      negb (Ascii.eqb c "*") && negb (Ascii.eqb c "?") && is_literal pat'
  end.

Fixpoint last_char (s : string) : option ascii :=
  match s with
  | EmptyString => None
  | String c EmptyString => Some c
  | String _ s' => last_char s'
  end.

(** [os.path.join(a, b)] of [posixpath]. *)
Definition os_path_join (a b : string) : string :=
  if String.prefix "/" b then b
  else if bool_decide (a = EmptyString) || bool_decide (last_char a = Some "/"%char)
  then a +:+ b
  else a +:+ "/" +:+ b.

(** The test of line 95 on a file name. *)
Definition eligible (filename : string) : bool :=
  fnmatch filename "*.csv" && negb (fnmatch filename "dj_*").

Lemma glob_match_star_unfold (pat name : string) :
  glob_match (String "*" pat) name =
  glob_match pat name ||
  match name with
  | EmptyString => false
  | String _ name' => glob_match (String "*" pat) name'
  end.
Proof. by destruct name. Qed.

(** [*] takes any front part of the name. *)
Lemma glob_match_star (pat name : string) :
  glob_match (String "*" pat) name = true ↔
  ∃ a b, name = a +:+ b ∧ glob_match pat b = true.
Proof.
  induction name as [|c name IH]; rewrite glob_match_star_unfold.
  - rewrite orb_false_r. split.
    + intros Hm. by exists EmptyString, EmptyString.
    + intros (a & b & Hab & Hm). symmetry in Hab.
      by apply app_nil_inv in Hab as [_ ->].
  - rewrite orb_true_iff, IH. split.
    + intros [Hm|(a & b & -> & Hm)].
      * by exists EmptyString, (String c name).
      * by exists (String c a), b.
    + intros (a & b & Hab & Hm). destruct a as [|c' a].
      * left. rewrite app_nil_l in Hab. by subst b.
      * right. rewrite app_cons in Hab. injection Hab as _ ->. eauto.
Qed.

(** A pattern of literal characters matches itself only. *)
Lemma glob_match_literal (pat name : string) :
  is_literal pat = true → glob_match pat name = true ↔ name = pat.
Proof.
  revert name. induction pat as [|c pat IH]; intros name Hlit.
  - by destruct name.
  - cbn [is_literal] in Hlit. apply andb_true_iff in Hlit as [Hc Hlit].
    apply andb_true_iff in Hc as [Hstar Hany].
    apply negb_true_iff in Hstar, Hany.
    cbn [glob_match]. rewrite Hstar, Hany.
    destruct name as [|d name]; [done|].
    rewrite andb_true_iff, (IH name Hlit). split.
    + intros [Hcd ->]. by apply Ascii.eqb_eq in Hcd as ->.
    + intros [= -> ->]. split; [apply Ascii.eqb_refl|done].
Qed.

(** Literal characters followed by [*] match the names that start so. *)
Lemma glob_match_prefix (pat name : string) :
  is_literal pat = true →
  glob_match (pat +:+ "*") name = true ↔ ∃ rest, name = pat +:+ rest.
Proof.
  revert name. induction pat as [|c pat IH]; intros name Hlit.
  - rewrite app_nil_l, glob_match_star. split; [by eauto|].
    intros _. exists name, EmptyString. by rewrite app_nil_r.
  - cbn [is_literal] in Hlit. apply andb_true_iff in Hlit as [Hc Hlit].
    apply andb_true_iff in Hc as [Hstar Hany].
    apply negb_true_iff in Hstar, Hany.
    rewrite app_cons. cbn [glob_match]. rewrite Hstar, Hany.
    destruct name as [|d name].
    { split; [done|]. by intros [rest ?]. }
    rewrite andb_true_iff, (IH name Hlit). split.
    + intros [Hcd [rest ->]]. apply Ascii.eqb_eq in Hcd as ->. by exists rest.
    + intros [rest Hrest]. rewrite app_cons in Hrest.
      injection Hrest as -> ->. split; [apply Ascii.eqb_refl|by eauto].
Qed.

(** The files the program takes: the names that end in [.csv] and do
    not start with [dj_]. *)
Lemma eligible_spec (filename : string) :
  eligible filename = true ↔
  (∃ stem, filename = stem +:+ ".csv") ∧ ¬ (∃ rest, filename = "dj_" +:+ rest).
Proof.
  unfold eligible, fnmatch.
  rewrite andb_true_iff, negb_true_iff, <-not_true_iff_false.
  rewrite glob_match_star.
  change "dj_*"%string with ("dj_" +:+ "*").
  rewrite (glob_match_prefix "dj_" filename eq_refl).
  split.
  - intros [(a & b & Hab & Hb) Hdj]. split; [|done].
    apply (glob_match_literal ".csv" b eq_refl) in Hb as ->. by exists a.
  - intros [[stem Hstem] Hdj]. split; [|done].
    exists stem, ".csv"%string. by split.
Qed.

Lemma os_path_join_suffix (a b suffix : string) :
  (∃ stem, b = stem +:+ suffix) → ∃ stem, os_path_join a b = stem +:+ suffix.
Proof.
  intros [stem ->]. unfold os_path_join.
  destruct (String.prefix _ _); [by eauto|].
  destruct (_ || _).
  - exists (a +:+ stem). by rewrite app_assoc.
  - exists (a +:+ "/" +:+ stem). by rewrite !app_assoc.
Qed.

Section Files.

(** [os.walk(directory)]: for each directory under [directory], its path,
    the names of its subdirectories and the names of its files. *)
Variable os_walk : string → list (string * list string * list string).

Definition collect_files (directory : string) : list string :=
  '(dirname, _dirs, files) ← os_walk directory;
  filename ← files;
  if eligible filename then [os_path_join dirname filename] else [].

Lemma collect_files_sound (directory path : string) :
  path ∈ collect_files directory →
  ∃ dirname dirs files filename,
    (dirname, dirs, files) ∈ os_walk directory ∧
    filename ∈ files ∧
    (∃ stem, filename = stem +:+ ".csv") ∧
    ¬ (∃ rest, filename = "dj_" +:+ rest) ∧
    path = os_path_join dirname filename.
Proof.
  unfold collect_files. rewrite list_elem_of_bind.
  intros ([[dirname dirs] files] & Hpath & Hwalk).
  apply list_elem_of_bind in Hpath as (filename & Hpath & Hfile).
  destruct (eligible filename) eqn:Hel; [|by apply elem_of_nil in Hpath].
  apply list_elem_of_singleton in Hpath as ->.
  apply eligible_spec in Hel as [Hcsv Hdj].
  by exists dirname, dirs, files, filename.
Qed.

(** X1.  The paths collected are exactly the joins of a walked directory
    with one of its file names that ends in [.csv] and does not start
    with [dj_]: no other file is taken and none of these is left out. *)
Theorem collect_files_spec (directory path : string) :
  path ∈ collect_files directory ↔
  ∃ dirname dirs files filename,
    (dirname, dirs, files) ∈ os_walk directory ∧
    filename ∈ files ∧
    (∃ stem, filename = stem +:+ ".csv") ∧
    ¬ (∃ rest, filename = "dj_" +:+ rest) ∧
    path = os_path_join dirname filename.
Proof.
  split; [apply collect_files_sound|].
  intros (dirname & dirs & files & filename & Hwalk & Hfile & Hcsv & Hdj & ->).
  unfold collect_files. apply list_elem_of_bind.
  exists (dirname, dirs, files). split; [|done].
  apply list_elem_of_bind. exists filename. split; [|done].
  rewrite (proj2 (eligible_spec filename)) by done.
  by apply list_elem_of_singleton.
Qed.

(** X2.  Every collected path ends in [.csv], whatever the directory it
    was joined with. *)
Theorem collect_files_csv (directory path : string) :
  path ∈ collect_files directory → ∃ stem, path = stem +:+ ".csv".
Proof.
  intros Hpath.
  apply collect_files_sound in Hpath
    as (dirname & dirs & files & filename & _ & _ & Hcsv & _ & ->).
  by apply os_path_join_suffix.
Qed.

End Files.

(** ** Output cells *)

(** [s.replace(old, new)] for [old] and [new] of one character. *)
Fixpoint str_replace (old new : ascii) (s : string) : string :=
  match s with
  | EmptyString => EmptyString
  | String c s' =>
      String (if Ascii.eqb c old then new else c) (str_replace old new s')
  end.

(** The header of the report, as the bytes of its UTF-8 text. *)
Definition HEADER : list string :=
  [ "Скорость, об/мин"; "Скорость сдвига, с^-1"; "Вязкость, прямой ход; сПз";
    "Напряжение сдвига, прямой ход; дин/см^2"; "Вязкость, обратный ход; сПз";
    "Напряжение сдвига, обратный ход; дин/см^2" ]%string.

(** [isinstance(value, float)]. *)
Definition is_float {float} (value : pyval float) : bool :=
  match value with
  | VFloat _ => true
  | _ => false
  end.

Section Output.

Variable float : Type.

(** [str(x)] of a float. *)
Variable py_str_float : float → string.

Definition stringify_values (value : pyval float) : pyval float :=
  if is_float value then
    match value with
    | VFloat x => VStr (str_replace "." "," (py_str_float x))
    | _ => value
    end
  else value.

(** The rows [write_data] hands to the csv writer, in order: the header,
    then each point with its cells stringified. *)
Definition write_data (points : list (list (pyval float)))
    : list (list (pyval float)) :=
  (VStr <$> HEADER) ::
  ((λ point : list (pyval float), stringify_values <$> point) <$> points).

Lemma str_replace_length (old new : ascii) (s : string) :
  String.length (str_replace old new s) = String.length s.
Proof. induction s as [|c s IH]; simpl; [done|]. by rewrite IH. Qed.

Lemma str_replace_get (old new : ascii) (s : string) (i : nat) :
  String.get i (str_replace old new s) =
  (λ c, if Ascii.eqb c old then new else c) <$> String.get i s.
Proof.
  revert i. induction s as [|c s IH]; intros i; simpl; [done|].
  destruct i as [|i]; [done|]. apply IH.
Qed.

Lemma stringify_values_not_float (value : pyval float) :
  is_float (stringify_values value) = false.
Proof. by destruct value. Qed.

(** X3.  A float cell is written as the text of the float with every
    point turned into a comma and nothing else changed: the text keeps
    its length and has no point left.  Any other cell is returned as it
    is, so an integer stays an integer; the result is never a float and
    stringifying twice changes nothing more. *)
Theorem stringify_values_spec (value : pyval float) :
  (∀ x, value = VFloat x →
     ∃ s, stringify_values value = VStr s ∧
       String.length s = String.length (py_str_float x) ∧
       (∀ i, String.get i s ≠ Some "."%char) ∧
       (∀ i c, String.get i (py_str_float x) = Some c →
          String.get i s = Some (if decide (c = "."%char) then ","%char else c))) ∧
  (is_float value = false → stringify_values value = value) ∧
  is_float (stringify_values value) = false ∧
  stringify_values (stringify_values value) = stringify_values value.
Proof.
  split; [|by destruct value].
  intros x ->. eexists. split; [done|]. split; [apply str_replace_length|].
  split.
  - intros i. rewrite str_replace_get.
    destruct (String.get i _) as [c|]; [|done]. simpl.
    destruct (Ascii.eqb_spec c ".") as [->|Hc]; [done|]. by intros [= ->].
  - intros i c Hc. rewrite str_replace_get, Hc. simpl.
    destruct (Ascii.eqb_spec c ".") as [->|Hne].
    + by rewrite decide_True.
    + by rewrite decide_False.
Qed.

(** X4.  The report gets the header of 6 cells and then one row per
    merged row, in the same order and of the same number of cells (a row
    of 4 cells stays short under the header), in which no cell is a
    float. *)
Theorem write_data_rows (points : list (list (pyval float))) :
  ∃ rows,
    write_data points = (VStr <$> HEADER) :: rows ∧
    length (VStr (float := float) <$> HEADER) = 6%nat ∧
    Forall2 (λ point row,
      length row = length point ∧
      Forall (λ cell, is_float cell = false) row ∧
      ∀ j cell, point !! j = Some cell →
        row !! j = Some (stringify_values cell)) points rows.
Proof.
  eexists. split; [done|]. split; [done|].
  apply Forall2_fmap_r, Forall_Forall2_diag, Forall_forall.
  intros point _. split; [by rewrite length_fmap|]. split.
  - apply Forall_fmap, Forall_forall. intros cell _. simpl.
    apply stringify_values_not_float.
  - intros j cell Hj. by rewrite list_lookup_fmap, Hj.
Qed.

End Output.

(** ** Records in the order of their keys *)

(** A Python dict keeps its keys in the order of their first insertion;
    [d[k] = v] replaces the value of a key that is there and appends a
    new key.  The dump reads the records in that order, so here a record
    is the list of its items. *)
Fixpoint odict_set {V} (k : string) (v : V) (d : list (string * V))
    : list (string * V) :=
  match d with
  | [] => [(k, v)]
  | (k', v') :: d' =>
      if decide (k' = k) then (k, v) :: d' else (k', v') :: odict_set k v d'
  end.

(** The items of [dict(pairs)]. *)
Definition py_dict_items {V} (pairs : list (string * V)) : list (string * V) :=
  foldl (λ d kv, odict_set kv.1 kv.2 d) [] pairs.

(** The elements of a list in the order of their first occurrence. *)
Definition first_occurrences (l : list string) : list string :=
  foldl (λ acc k, if decide (k ∈ acc) then acc else acc ++ [k]) [] l.

Lemma odict_set_keys {V} (k : string) (v : V) (d : list (string * V)) :
  (odict_set k v d).*1 = if decide (k ∈ d.*1) then d.*1 else d.*1 ++ [k].
Proof.
  induction d as [|[k' v'] d IH]; [done|].
  cbn [odict_set]. destruct (decide (k' = k)) as [->|Hne]; rewrite !fmap_cons.
  - cbn [fst]. rewrite decide_True; [done|]. left.
  - cbn [fst]. rewrite IH. destruct (decide (k ∈ d.*1)) as [Hin|Hnin].
    + rewrite decide_True; [done|]. by right.
    + rewrite decide_False; [done|]. rewrite elem_of_cons. by intros [?|?].
Qed.

Lemma odict_set_to_map {V} (k : string) (v : V) (d : list (string * V)) :
  list_to_map (odict_set k v d) =@{gmap string V} <[k := v]> (list_to_map d).
Proof.
  induction d as [|[k' v'] d IH]; simpl; [done|].
  destruct (decide (k' = k)) as [->|Hne]; simpl.
  - by rewrite insert_insert_eq.
  - rewrite IH. by apply insert_insert_ne.
Qed.

Lemma py_dict_items_snoc {V} (pairs : list (string * V)) (kv : string * V) :
  py_dict_items (pairs ++ [kv]) = odict_set kv.1 kv.2 (py_dict_items pairs).
Proof. unfold py_dict_items. by rewrite foldl_app. Qed.

Lemma first_occurrences_snoc (l : list string) (k : string) :
  first_occurrences (l ++ [k]) =
  if decide (k ∈ first_occurrences l) then first_occurrences l
  else first_occurrences l ++ [k].
Proof. unfold first_occurrences. by rewrite foldl_app. Qed.

(** The list of items is the dict of the reader, with its order. *)
Lemma py_dict_items_to_map {V} (pairs : list (string * V)) :
  list_to_map (py_dict_items pairs) = py_dict pairs.
Proof.
  induction pairs as [|kv pairs IH] using rev_ind; [done|].
  by rewrite py_dict_items_snoc, py_dict_snoc, odict_set_to_map, IH.
Qed.

Lemma py_dict_items_keys {V} (pairs : list (string * V)) :
  (py_dict_items pairs).*1 = first_occurrences pairs.*1.
Proof.
  induction pairs as [|kv pairs IH] using rev_ind; [done|].
  rewrite py_dict_items_snoc, odict_set_keys, fmap_snoc.
  by rewrite first_occurrences_snoc, IH.
Qed.

Lemma first_occurrences_elem_of (l : list string) (k : string) :
  k ∈ first_occurrences l ↔ k ∈ l.
Proof.
  induction l as [|k' l IH] using rev_ind; [done|].
  rewrite first_occurrences_snoc, elem_of_app, list_elem_of_singleton, <-IH.
  destruct (decide (k' ∈ first_occurrences l)) as [Hin|Hnin].
  - split; [by left|]. by intros [?| ->].
  - by rewrite elem_of_app, list_elem_of_singleton.
Qed.

Lemma first_occurrences_NoDup (l : list string) : NoDup (first_occurrences l).
Proof.
  induction l as [|k l IH] using rev_ind; [constructor|].
  rewrite first_occurrences_snoc. destruct (decide _) as [Hin|Hnin]; [done|].
  apply NoDup_app. split; [done|]. split; [|apply NoDup_singleton].
  intros k' Hk' ->%list_elem_of_singleton. done.
Qed.

(** A list without repetition is its own list of first occurrences. *)
Lemma first_occurrences_id (l : list string) :
  NoDup l → first_occurrences l = l.
Proof.
  induction l as [|k l IH] using rev_ind; [done|]. intros Hnd.
  apply NoDup_app in Hnd as (Hl & Hk & _).
  rewrite first_occurrences_snoc, IH by done.
  rewrite decide_False; [done|]. intros Hin.
  apply (Hk k Hin). by apply list_elem_of_singleton.
Qed.

Lemma zip_fmap_keys {A B C} (f : B → C) (names : list A) (values : list B) :
  (zip names (f <$> values)).*1 = take (length values) names.
Proof.
  revert values. induction names as [|a names IH]; intros [|b values];
    simpl; [done..|]. f_equal. apply IH.
Qed.

Lemma py_dict_items_elem_of {V} (pairs : list (string * V)) (k : string) :
  k ∈ (py_dict_items pairs).*1 ↔ is_Some (py_dict pairs !! k).
Proof.
  rewrite py_dict_items_keys, first_occurrences_elem_of, py_dict_is_Some.
  rewrite list_elem_of_fmap. split.
  - intros ([k' v] & -> & Hin). apply list_elem_of_lookup in Hin as [i Hi].
    by exists i, v.
  - intros (i & v & Hi). exists (k, v). split; [done|].
    by eapply list_elem_of_lookup_2.
Qed.

(** A loop of calls that may raise: it returns when every call returns,
    and raises what the first failing call raises. *)
Lemma mapM_result_Ok {A B} (f : A → result B) (l : list A) (ys : list B) :
  mapM f l = Ok ys ↔ Forall2 (λ x y, f x = Ok y) l ys.
Proof.
  revert ys. induction l as [|x l IH]; intros ys.
  - split.
    + intros [= <-]. constructor.
    + intros ->%Forall2_nil_inv_l. done.
  - cbn [mapM]. destruct (f x) as [y|e] eqn:Hfx; simpl.
    + destruct (mapM f l) as [ys'|e] eqn:Hl; simpl.
      * split.
        -- intros [= <-]. constructor; [done|]. by apply IH.
        -- intros (y' & ys'' & Hy & Hys & ->)%Forall2_cons_inv_l.
           apply IH in Hys. rewrite Hfx in Hy.
           injection Hy as <-. injection Hys as <-. done.
      * split; [done|].
        intros (y' & ys'' & Hy & Hys & ->)%Forall2_cons_inv_l.
        by apply IH in Hys.
    + split; [done|].
      intros (y' & ys'' & Hy & Hys & ->)%Forall2_cons_inv_l. congruence.
Qed.

Lemma mapM_result_Raise {A B} (f : A → result B) (l1 l2 : list A) (x : A)
    (e : exn) :
  Forall (λ x, ∃ y, f x = Ok y) l1 → f x = Raise e →
  mapM f (l1 ++ x :: l2) = Raise e.
Proof.
  intros Hl1 Hx. induction Hl1 as [|x1 l1 [y Hy] _ IH]; simpl.
  - by rewrite Hx.
  - rewrite Hy. simpl. fold (mapM f (l1 ++ x :: l2)). by rewrite IH.
Qed.

(** Paths are sorted by the order of strings. *)
Lemma string_ltb_asym (x y : string) :
  String.ltb x y = true → String.ltb y x = false.
Proof.
  unfold String.ltb. rewrite (String.compare_antisym x y).
  by destruct (String.compare y x).
Qed.

Lemma string_not_after (x y : string) :
  not_after String.ltb x y ↔ String.le x y.
Proof.
  unfold not_after, String.le, String.ltb, String.leb.
  rewrite (String.compare_antisym y x).
  destruct (String.compare x y); simpl; split; done.
Qed.

Lemma py_sorted_strings (l : list string) :
  StronglySorted String.le (py_sorted String.ltb l).
Proof.
  eapply StronglySorted_weaken; [|apply (py_sorted_Sorted String.ltb)].
  - intros x y. apply string_not_after.
  - apply string_ltb_asym.
  - intros x y z. rewrite !string_not_after. apply transitivity.
Qed.

(** ** Dump and the main loop *)

(** The [argparse] options of the program. *)
Record Namespace : Set := mkNamespace {
  ns_directory : string;
  ns_output : string;
  ns_dump : string
}.

Section Records.

Variable float : Type.
Variable py_int : string → option Z.
Variable py_float : string → option float.
Variable Sniffer_sniff : string → string → option Dialect.
Variable csv_reader : Dialect → string → list (list string).
Variable dtparser_parse : string → option datetime.
Variable py_str_float : float → string.
Variable os_walk : string → list (string * list string * list string).

(** [open(filename, encoding='cp1251')] on a file that the walk listed. *)
Variable open_file : string → TextIO.

(** [dateutil.parser.parse] with the error it raises: [ParserError], a
    [ValueError], on a text it cannot read, [OverflowError] on a date
    out of range. *)
Variable dtparser_parse_exn : string → result datetime.

(** The reader with the parser's own errors: lines 81 and 82 of
    [read_data], where whatever the parser raises propagates. *)
Definition read_grid_exn (data : list (list string))
    : result (gmap string (pyval float)) :=
  row ← py_index data 7;
  d ← py_index row 2;
  t ← py_index row 3;
  dt ← dtparser_parse_exn (d +:+ " " +:+ t);
  names ← py_index data (-3);
  values ← py_index data (-1);
  let fields :=
    py_dict (zip names (transform_value float py_int py_float <$> values)) in
  if decide (is_Some (fields !! "DT"%string)) then Raise TypeError
  else Ok (<["DT"%string := VDateTime dt]> fields).

(** The reader again, with the record as the list of its items. *)
Definition read_grid_items (data : list (list string))
    : result (list (string * pyval float)) :=
  row ← py_index data 7;
  d ← py_index row 2;
  t ← py_index row 3;
  dt ← or_raise ValueError (dtparser_parse (d +:+ " " +:+ t));
  names ← py_index data (-3);
  values ← py_index data (-1);
  let fields :=
    py_dict_items (zip names (transform_value float py_int py_float <$> values)) in
  if decide ("DT"%string ∈ fields.*1) then Raise TypeError
  else Ok (("DT"%string, VDateTime dt) :: fields).

Definition read_data_items (fp : TextIO) : result (list (string * pyval float)) :=
  let '(r, fp1) := sniff_dialect Sniffer_sniff fp in
  dialect ← r;
  read_grid_items (csv_reader dialect (fp_read_all fp1).1).

(** The rows [dump] hands to the csv writer: the keys of the first
    record, then the stringified values of each record, in its order.
    The header is taken before the file is opened. *)
Definition dump (points : list (list (string * pyval float)))
    : result (list (list (pyval float))) :=
  first ← py_index points 0;
  let header := first.*1 in
  Ok ((VStr <$> header) ::
      ((λ point : list (string * pyval float),
          stringify_values float py_str_float <$> point.*2) <$> points)).

(** Lines 181-184 of [main]: the records of the collected files, read in
    the order of their sorted paths. *)
Definition main_points (options : Namespace)
    : result (list (list (string * pyval float))) :=
  mapM (λ filename, read_data_items (open_file filename))
    (py_sorted String.ltb (collect_files os_walk (ns_directory options))).

(** Lines 181-187 of [main]: the records and, when [options.dump] is
    not empty, the rows of their dump. *)
Definition main_dump (options : Namespace)
    : result (list (list (string * pyval float)) *
              option (list (list (pyval float)))) :=
  points ← main_points options;
  if decide (ns_dump options = EmptyString) then Ok (points, None)
  else rows ← dump points; Ok (points, Some rows).

(** X5.  The record with its keys in order is the record of the reader:
    the two raise the same errors on the same grids, and where they
    return, the items make up the same map.  The keys come without
    repetition: DT first, then the field names that were paired with a
    value, in the order of their first occurrence. *)
Theorem read_grid_items_refines (data : list (list string)) :
  match read_grid_items data with
  | Ok items =>
      read_grid float py_int py_float dtparser_parse data =
        Ok (list_to_map items) ∧
      NoDup items.*1 ∧
      ∃ names values,
        py_index data (-3) = Ok names ∧ py_index data (-1) = Ok values ∧
        items.*1 =
          "DT"%string :: first_occurrences (take (length values) names)
  | Raise e => read_grid float py_int py_float dtparser_parse data = Raise e
  end.
Proof.
  unfold read_grid_items, read_grid.
  destruct (py_index data 7) as [row|e]; simpl; [|done].
  destruct (py_index row 2) as [d|e]; simpl; [|done].
  destruct (py_index row 3) as [t|e]; simpl; [|done].
  destruct (dtparser_parse _) as [dt|]; simpl; [|done].
  destruct (py_index data (-3)) as [names|e]; simpl; [|done].
  destruct (py_index data (-1)) as [values|e]; simpl; [|done].
  set (pairs := zip names (transform_value float py_int py_float <$> values)).
  pose proof (py_dict_items_elem_of pairs "DT") as HDT.
  destruct (decide ("DT"%string ∈ (py_dict_items pairs).*1)) as [Hin|Hnin].
  - rewrite decide_True; [done|]. by apply HDT.
  - rewrite decide_False by (by rewrite <-HDT). split; [|split].
    + by rewrite list_to_map_cons, py_dict_items_to_map.
    + rewrite fmap_cons. apply NoDup_cons. split; [done|].
      rewrite py_dict_items_keys. apply first_occurrences_NoDup.
    + exists names, values. repeat split.
      rewrite fmap_cons, py_dict_items_keys. unfold pairs.
      by rewrite zip_fmap_keys.
Qed.

(** X6.  The reader parses the whole text of the file, wherever the
    stream stood, with the dialect sniffed on the 2000 characters from
    its position on, or with [csv.excel] when sniffing fails. *)
Theorem read_data_whole_file (fp : TextIO) :
  ∃ dialect,
    (Sniffer_sniff (substring (position fp) 2000 (content fp)) sniff_delimiters
       = Some dialect ∨
     Sniffer_sniff (substring (position fp) 2000 (content fp)) sniff_delimiters
       = None ∧ dialect = csv_excel) ∧
    read_data float py_int py_float Sniffer_sniff csv_reader dtparser_parse fp =
      read_grid float py_int py_float dtparser_parse
        (csv_reader dialect (content fp)) ∧
    read_data_items fp = read_grid_items (csv_reader dialect (content fp)).
Proof.
  unfold read_data, read_data_items, sniff_dialect, fp_read_all, fp_read.
  simpl. rewrite Nat.sub_0_r, substring_all.
  destruct (Sniffer_sniff _ _) as [d|] eqn:Hsniff; simpl.
  - exists d. auto.
  - exists csv_excel. auto.
Qed.

(** X7.  The dump raises [IndexError], from [points[0]], exactly on the
    empty list of records; on any other list it returns the header and
    one row per record. *)
Theorem dump_empty (points : list (list (string * pyval float))) :
  (dump points = Raise IndexError ↔ points = []) ∧
  (points = [] ∨
   ∃ rows, dump points = Ok rows ∧ length rows = S (length points)).
Proof.
  destruct points as [|first points].
  - split; [done|by left].
  - split; [done|]. right. eexists. split; [done|].
    simpl. by rewrite length_fmap.
Qed.

(** X8.  The header of the dump is the list of keys of the first record.
    Each record gives one row, with as many cells as the record has
    keys; for a record whose keys are those of the first one, in the
    same order, the cell under a key of the header is the stringified
    value of that key. *)
Theorem dump_rows (points : list (list (string * pyval float)))
    (rows : list (list (pyval float))) :
  dump points = Ok rows →
  ∃ first body,
    points !! 0%nat = Some first ∧
    rows = (VStr <$> first.*1) :: body ∧
    length body = length points ∧
    ∀ i point, points !! i = Some point →
      ∃ row, body !! i = Some row ∧ length row = length point ∧
        (point.*1 = first.*1 → NoDup point.*1 →
         ∀ j key, first.*1 !! j = Some key →
           ∃ cell,
             (list_to_map point : gmap string (pyval float)) !! key = Some cell ∧
             row !! j = Some (stringify_values float py_str_float cell)).
Proof.
  destruct points as [|first points]; [done|].
  intros [= <-].
  exists first,
    ((λ point : list (string * pyval float),
        stringify_values float py_str_float <$> point.*2) <$> (first :: points)).
  split; [done|]. split; [done|].
  split; [by rewrite length_fmap|].
  intros i point Hi. eexists. split; [by rewrite list_lookup_fmap, Hi|].
  split; [by rewrite !length_fmap|].
  intros Hkeys Hnd j key Hj. rewrite <-Hkeys in Hj.
  apply list_lookup_fmap_Some_1 in Hj as ([key' cell] & Hkey & Hj).
  simpl in Hkey. subst key'. exists cell. split.
  - apply elem_of_list_to_map; [done|]. by eapply list_elem_of_lookup_2.
  - by rewrite !list_lookup_fmap, Hj.
Qed.

(** X9.  When the main loop returns, it has read one record per
    collected file, in the ascending order of the paths. *)
Theorem main_points_Ok (options : Namespace)
    (points : list (list (string * pyval float))) :
  main_points options = Ok points →
  ∃ files,
    files ≡ₚ collect_files os_walk (ns_directory options) ∧
    StronglySorted String.le files ∧
    Forall2 (λ filename point,
      read_data_items (open_file filename) = Ok point) files points.
Proof.
  intros Hok. apply mapM_result_Ok in Hok.
  eexists. split; [apply py_sorted_Permutation|].
  split; [apply py_sorted_strings|done].
Qed.

(** X10.  One file that cannot be read aborts the run: the main loop
    raises the error of the first file, in the order of the sorted
    paths, on which the reader raises, and nothing is dumped. *)
Theorem main_points_Raise (options : Namespace)
    (good rest : list string) (bad : string) (e : exn) :
  py_sorted String.ltb (collect_files os_walk (ns_directory options)) =
    good ++ bad :: rest →
  Forall (λ filename, ∃ point,
    read_data_items (open_file filename) = Ok point) good →
  read_data_items (open_file bad) = Raise e →
  main_points options = Raise e ∧ main_dump options = Raise e.
Proof.
  intros Hfiles Hgood Hbad.
  assert (main_points options = Raise e) as Hraise.
  { unfold main_points. rewrite Hfiles. by apply mapM_result_Raise. }
  split; [done|]. unfold main_dump. by rewrite Hraise.
Qed.

(** X11.  On a directory where no file is collected the main loop
    returns no record; the dump, when asked for, then raises
    [IndexError]. *)
Theorem main_dump_no_files (options : Namespace) :
  collect_files os_walk (ns_directory options) = [] →
  main_points options = Ok [] ∧
  main_dump options =
    if decide (ns_dump options = EmptyString) then Ok ([], None)
    else Raise IndexError.
Proof.
  intros Hnone.
  assert (main_points options = Ok []) as Hpoints.
  { unfold main_points. by rewrite Hnone. }
  split; [done|]. unfold main_dump. rewrite Hpoints. simpl.
  by destruct (decide _).
Qed.

Lemma DT_paired (names values : list string) :
  "DT"%string ∈ take (length values) names ↔
  is_Some (py_dict (zip names (transform_value float py_int py_float <$> values))
             !! "DT"%string).
Proof.
  rewrite fields_is_Some, list_elem_of_lookup. split.
  - intros (i & Hi). apply lookup_take_Some in Hi as [Hi Hlt]. eauto.
  - intros (i & Hi & Hlt). exists i. by rewrite lookup_take_lt.
Qed.

(** X18.  A field named DT that is paired with a value makes the reader
    raise [TypeError]: the timestamp is never replaced by a cell of the
    file, and no record is returned. *)
Theorem read_grid_DT_clash (data : list (list string)) (row : list string)
    (d t : string) (dt : datetime) (names values : list string) :
  data !! 7%nat = Some row → row !! 2%nat = Some d → row !! 3%nat = Some t →
  dtparser_parse (d +:+ " " +:+ t) = Some dt →
  data !! (length data - 3)%nat = Some names →
  data !! (length data - 1)%nat = Some values →
  "DT"%string ∈ take (length values) names →
  read_grid float py_int py_float dtparser_parse data = Raise TypeError.
Proof.
  intros Hrow Hd Ht Hdt Hn Hv HDT. unfold read_grid.
  assert (8 ≤ length data)%nat as Hlen by (apply lookup_lt_Some in Hrow; lia).
  rewrite (py_index_nonneg data 7) by lia.
  change (Z.to_nat 7) with 7%nat. rewrite Hrow. simpl.
  rewrite (py_index_nonneg row 2), (py_index_nonneg row 3) by lia.
  change (Z.to_nat 2) with 2%nat. change (Z.to_nat 3) with 3%nat.
  rewrite Hd. simpl. rewrite Ht. simpl. rewrite Hdt. simpl.
  change (-3) with (- Z.of_nat 3). change (-1) with (- Z.of_nat 1).
  rewrite !py_index_from_end by lia. rewrite Hn. simpl. rewrite Hv. simpl.
  rewrite decide_True; [done|]. by apply DT_paired.
Qed.

(** With a parser that fails with [ParserError] only, the reader with
    the parser's errors is the reader of the claims. *)
Lemma read_grid_exn_ParserError (data : list (list string)) :
  (∀ s, dtparser_parse_exn s = or_raise ValueError (dtparser_parse s)) →
  read_grid_exn data = read_grid float py_int py_float dtparser_parse data.
Proof.
  intros Hparse. unfold read_grid_exn, read_grid.
  destruct (py_index data 7) as [row|]; [simpl|done].
  destruct (py_index row 2) as [d|]; [simpl|done].
  destruct (py_index row 3) as [t|]; [simpl|done].
  by rewrite Hparse.
Qed.

(** X19.  The reader fails for three causes only.  It raises
    [IndexError] when the grid has fewer than 8 rows or row 7 fewer than
    4 cells; it raises the error of the date parser, whichever it is
    ([ParserError], [OverflowError]), when the parser fails on the text
    of the two timestamp cells; it raises [TypeError] when the
    timestamp was read and a paired field is named DT. *)
Theorem read_grid_errors (data : list (list string)) (e : exn) :
  read_grid_exn data = Raise e →
  (e = IndexError ∧
     ((length data < 8)%nat ∨
      ∃ row, data !! 7%nat = Some row ∧ (length row < 4)%nat)) ∨
  (∃ row d t, data !! 7%nat = Some row ∧ row !! 2%nat = Some d ∧
     row !! 3%nat = Some t ∧
     dtparser_parse_exn (d +:+ " " +:+ t) = Raise e) ∨
  (e = TypeError ∧
     ∃ row d t dt names values,
       data !! 7%nat = Some row ∧ row !! 2%nat = Some d ∧
       row !! 3%nat = Some t ∧
       dtparser_parse_exn (d +:+ " " +:+ t) = Ok dt ∧
       data !! (length data - 3)%nat = Some names ∧
       data !! (length data - 1)%nat = Some values ∧
       "DT"%string ∈ take (length values) names).
Proof.
  unfold read_grid_exn.
  rewrite (py_index_nonneg data 7) by lia. change (Z.to_nat 7) with 7%nat.
  destruct (data !! 7%nat) as [row|] eqn:Hrow; simpl.
  2:{ intros [= <-]. left. split; [done|]. left.
      apply lookup_ge_None in Hrow. lia. }
  assert (8 ≤ length data)%nat as Hlen by (apply lookup_lt_Some in Hrow; lia).
  rewrite (py_index_nonneg row 2), (py_index_nonneg row 3) by lia.
  change (Z.to_nat 2) with 2%nat. change (Z.to_nat 3) with 3%nat.
  destruct (row !! 2%nat) as [d|] eqn:Hd; simpl.
  2:{ intros [= <-]. left. split; [done|]. right. exists row. split; [done|].
      apply lookup_ge_None in Hd. lia. }
  destruct (row !! 3%nat) as [t|] eqn:Ht; simpl.
  2:{ intros [= <-]. left. split; [done|]. right. exists row. split; [done|].
      apply lookup_ge_None in Ht. lia. }
  destruct (dtparser_parse_exn (d +:+ " " +:+ t)) as [dt|e'] eqn:Hdt; simpl.
  2:{ intros [= <-]. right. left. by exists row, d, t. }
  change (-3) with (- Z.of_nat 3). change (-1) with (- Z.of_nat 1).
  rewrite !py_index_from_end by lia.
  destruct (lookup_lt_is_Some_2 data (length data - 3)%nat) as [names Hn];
    [lia|].
  destruct (lookup_lt_is_Some_2 data (length data - 1)%nat) as [values Hv];
    [lia|].
  rewrite Hn. simpl. rewrite Hv. simpl.
  destruct (decide _) as [HDT|HDT]; [|done].
  intros [= <-]. right. right. split; [done|].
  exists row, d, t, dt, names, values. repeat split; [done..|].
  by apply DT_paired.
Qed.

End Records.

(** ** More on the merger *)

Section MergerFacts.

Context {value : Type} `{Countable value} `{Lexico value}.
Context `{!TrichotomyT (@lexico value _)}.

(** X12.  The merger walks the records it was given, each once, in
    ascending order of their timestamps; records with the same
    timestamp are walked in the order of the input. *)
Theorem sorted_points_order (points : list (@point value)) :
  sorted_points points ≡ₚ points ∧
  StronglySorted (λ p q, DT p ≤ DT q) (sorted_points points) ∧
  ∀ t, filter (λ p, DT p = t) (sorted_points points) =
       filter (λ p, DT p = t) points.
Proof.
  split; [apply sorted_points_Permutation|].
  split; [apply sorted_points_Sorted|apply sorted_points_stable].
Qed.

Lemma order_singleton (p : @point value) : order [p] = [point_key p].
Proof.
  apply Permutation_singleton_r, NoDup_Permutation;
    [apply NoDup_order|apply NoDup_singleton|].
  intros k. rewrite elem_of_order, list_elem_of_singleton. split.
  - by intros (q & ->%list_elem_of_singleton & <-).
  - intros ->. exists p. split; [by apply list_elem_of_singleton|done].
Qed.

(** X13.  A single record gives a single row of 6 values, its reading
    in both strokes: alone, its key is the greatest one. *)
Theorem calculate_rates_single (p : @point value) :
  calculate_rates [p] = Ok [row6 p].
Proof.
  unfold calculate_rates. rewrite order_singleton. simpl.
  unfold merge_loop, sorted_points. simpl.
  rewrite merge_point_max by done. by rewrite lookup_insert_eq.
Qed.

Lemma occurrences_sorted_length (points : list (@point value))
    (k : value * value) :
  length (occurrences k (sorted_points points)) = length (occurrences k points).
Proof. unfold occurrences. by rewrite sorted_points_Permutation. Qed.

(** X14.  There is one row per distinct group key of the input. *)
Theorem calculate_rates_count (points : list (@point value))
    (rows : list (list value)) :
  calculate_rates points = Ok rows →
  length rows = size (list_to_set (point_key <$> points) : gset (value * value)).
Proof.
  intros Hok. pose proof (calculate_rates_Ok_inv _ _ Hok) as Hne.
  destruct (calculate_rates_rows points Hne) as (M & rows' & _ & Hok' & Hall).
  rewrite Hok in Hok'. injection Hok' as <-.
  rewrite <-(Forall2_length _ _ _ Hall). unfold order.
  rewrite py_sorted_length. unfold size, set_size. simpl.
  by rewrite (sorted_points_Permutation points).
Qed.

(** X15.  A row has 4 values exactly when its key is not the greatest
    one and one record only has it; it has 6 values exactly when its key
    is the greatest one or two records or more have it. *)
Theorem calculate_rates_row_length_iff (points : list (@point value))
    (rows : list (list value)) (max_point k : value * value) (i : nat)
    (row : list value) :
  calculate_rates points = Ok rows →
  last (order points) = Some max_point →
  order points !! i = Some k →
  rows !! i = Some row →
  (length row = 4%nat ↔
     k ≠ max_point ∧ length (occurrences k points) = 1%nat) ∧
  (length row = 6%nat ↔
     k = max_point ∨ (2 ≤ length (occurrences k points))%nat).
Proof.
  intros Hok Hmax Hi Hrow.
  destruct (calculate_rates_lookup _ _ _ _ _ Hok Hmax Hi) as [Hloop _].
  rewrite Hrow in Hloop. symmetry in Hloop.
  rewrite <-occurrences_sorted_length.
  destruct (decide (k = max_point)) as [->|Hne].
  - apply merge_loop_entry in Hloop as (_ & _ & Hlen).
    rewrite (Hlen eq_refl). split; split; [done|by intros [? _]|by left|done].
  - rewrite merge_loop_other in Hloop by done.
    destruct (occurrences k (sorted_points points)) as [|p1 [|p2 rest]];
      [done|..]; injection Hloop as <-; simpl.
    + split; split; [done|done|done|]. intros [?|?]; [done|lia].
    + split; split; [done| |intros _; right; lia|done].
      intros [_ ?]. lia.
Qed.

(** X16.  The merger invents nothing: every value of a row is a value
    of an input record whose group key is the key of the row. *)
Theorem calculate_rates_cells (points : list (@point value))
    (rows : list (list value)) (row : list value) :
  calculate_rates points = Ok rows → row ∈ rows →
  ∃ k, row_key row = Some k ∧
    ∀ v, v ∈ row → ∃ p, p ∈ points ∧ point_key p = k ∧ v ∈ row4 p.
Proof.
  intros Hok Hrow. pose proof (calculate_rates_Ok_inv _ _ Hok) as Hne.
  destruct (calculate_rates_rows points Hne) as (M & rows' & _ & Hok' & Hall).
  rewrite Hok in Hok'. injection Hok' as <-.
  apply list_elem_of_lookup in Hrow as [i Hi].
  destruct (Forall2_lookup_r _ _ _ _ _ Hall Hi) as (k & _ & Hk).
  exists k. split; [by destruct (merge_loop_entry _ _ _ _ Hk) as [? _]|].
  assert (∀ q, q ∈ occurrences k (sorted_points points) →
            q ∈ points ∧ point_key q = k) as Hocc.
  { intros q [Hq Hin]%list_elem_of_filter.
    by rewrite sorted_points_Permutation in Hin. }
  destruct (decide (k = M)) as [->|HkM].
  - rewrite merge_loop_max in Hk.
    destruct (last _) as [p|] eqn:Hlast; [|done]. injection Hk as <-.
    destruct (Hocc p) as [Hp Hkey].
    { apply last_Some in Hlast as [l ->].
      apply elem_of_app. right. by apply list_elem_of_singleton. }
    intros v Hv. exists p. repeat split; [done..|].
    apply list_elem_of_In in Hv. apply list_elem_of_In. simpl in *. tauto.
  - rewrite merge_loop_other in Hk by done.
    destruct (occurrences k (sorted_points points)) as [|p1 [|p2 rest]] eqn:Ho;
      [done|..]; injection Hk as <-.
    + destruct (Hocc p1) as [Hp Hkey]; [left|].
      intros v Hv. by exists p1.
    + destruct (Hocc p1) as [Hp1 Hkey1]; [left|].
      destruct (Hocc p2) as [Hp2 Hkey2]; [right; left|].
      intros v Hv.
      assert (v ∈ row4 p1 ∨ v ∈ [Viscosity p2; Shear_Stress p2]) as [Hv1|Hv2].
      { rewrite !list_elem_of_In. apply list_elem_of_In in Hv.
        simpl in *. tauto. }
      * by exists p1.
      * exists p2. repeat split; [done..|].
        apply list_elem_of_In in Hv2. apply list_elem_of_In.
        simpl in *. tauto.
Qed.

Section strict_facts.
Context `{!StrictOrder (@lexico value _)}.

Lemma sorted_points_unique (points points' : list (@point value)) :
  NoDup (DT <$> points) → points ≡ₚ points' →
  sorted_points points = sorted_points points'.
Proof.
  intros Hnd Hperm.
  apply (StronglySorted_unique_strong (λ p q, DT p ≤ DT q));
    [|apply sorted_points_Sorted..|].
  - intros p q Hp Hq Hpq Hqp.
    rewrite sorted_points_Permutation in Hp.
    rewrite sorted_points_Permutation, <-Hperm in Hq.
    apply list_elem_of_lookup in Hp as [i Hi].
    apply list_elem_of_lookup in Hq as [j Hj].
    assert (i = j) as ->.
    { apply (NoDup_lookup _ i j (DT p) Hnd).
      - by rewrite list_lookup_fmap, Hi.
      - rewrite list_lookup_fmap, Hj. simpl. f_equal. lia. }
    congruence.
  - by rewrite !sorted_points_Permutation.
Qed.

(** X17.  When no two records have the same timestamp, the rows do not
    depend on the order in which the records are given. *)
Theorem calculate_rates_Permutation (points points' : list (@point value)) :
  NoDup (DT <$> points) → points ≡ₚ points' →
  calculate_rates points = calculate_rates points'.
Proof.
  intros Hnd Hperm. unfold calculate_rates.
  by rewrite (order_Permutation points points' Hperm),
    (sorted_points_unique points points' Hnd Hperm).
Qed.

Lemma filter_key_DT (k : value * value) (t : datetime) (l : list (@point value)) :
  (∀ r, r ∈ l → point_key r = k → DT r = t) →
  occurrences k l = occurrences k (filter (λ r, DT r = t) l).
Proof.
  unfold occurrences. induction l as [|r l IH]; intros Hall; [done|].
  rewrite !filter_cons.
  assert (∀ r', r' ∈ l → point_key r' = k → DT r' = t) as Hall'.
  { intros r' Hr'. apply Hall. by right. }
  destruct (decide (point_key r = k)) as [Hk|Hk].
  - rewrite decide_True by (apply Hall; [left|done]).
    rewrite filter_cons, decide_True by done. by rewrite IH.
  - destruct (decide (DT r = t)); [|by apply IH].
    rewrite filter_cons, decide_False by done. by apply IH.
Qed.

(** The records of a key that all bear one timestamp are walked in the
    order of the input. *)
Lemma occurrences_same_DT (k : value * value) (t : datetime)
    (points : list (@point value)) :
  (∀ r, r ∈ points → point_key r = k → DT r = t) →
  occurrences k (sorted_points points) = occurrences k points.
Proof.
  intros Hall.
  rewrite (filter_key_DT k t (sorted_points points)).
  - by rewrite sorted_points_stable, <-filter_key_DT.
  - intros r Hr. apply Hall. by rewrite <-(sorted_points_Permutation points).
Qed.

Lemma last_order_two (points : list (@point value)) (k M : value * value) :
  (∀ r, r ∈ points → point_key r = k ∨ point_key r = M) →
  (∃ r, r ∈ points ∧ point_key r = M) →
  lexico k M →
  last (order points) = Some M.
Proof.
  intros Hkeys [m [Hm HmM]] HkM.
  destruct (last_order_is_Some points) as [M' HM'].
  { intros ->. by apply elem_of_nil in Hm. }
  rewrite HM'. f_equal.
  destruct (last_order_greatest points M' HM') as [Hin Hmax].
  apply elem_of_order in Hin as (r & Hr & <-).
  destruct (Hkeys r Hr) as [Hrk|HrM]; [|done].
  destruct (Hmax M) as [->|HMr]; [apply elem_of_order; eauto|done|].
  rewrite Hrk in HMr. destruct (irreflexivity lexico k). by trans M.
Qed.

(** X20.  With equal timestamps the rows do depend on the order of the
    input: of two records of one key below the greatest, taken at the
    same time with different readings, the one given first fills the
    forward stroke and the other the reverse stroke, so swapping them
    changes the result. *)
Theorem calculate_rates_ties (p q m : @point value) :
  DT p = DT q → point_key p = point_key q →
  lexico (point_key p) (point_key m) →
  Viscosity p ≠ Viscosity q ∨ Shear_Stress p ≠ Shear_Stress q →
  calculate_rates [p; q; m] ≠ calculate_rates [q; p; m] ∧
  ∃ i rows rows',
    calculate_rates [p; q; m] = Ok rows ∧
    calculate_rates [q; p; m] = Ok rows' ∧
    rows !! i = Some (row4 p ++ [Viscosity q; Shear_Stress q]) ∧
    rows' !! i = Some (row4 q ++ [Viscosity p; Shear_Stress p]).
Proof.
  intros HDT Hkey Hlt Hdiff.
  set (k := point_key p). set (M := point_key m).
  assert (k ≠ M) as Hne.
  { intros Heq. apply (irreflexivity lexico k). by rewrite Heq at 2. }
  assert ([p; q; m] ≡ₚ [q; p; m]) as Hperm by apply Permutation_swap.
  assert (∀ l, l ≡ₚ [p; q; m] → last (order l) = Some M) as Hmax.
  { intros l Hl. apply (last_order_two l k M); [| |done].
    - intros r Hr. rewrite Hl in Hr.
      apply list_elem_of_In in Hr. simpl in Hr.
      destruct Hr as [<-|[<-|[<-|[]]]]; auto.
    - exists m. split; [|done]. rewrite Hl. do 2 right. left. }
  assert (∀ l, l ≡ₚ [p; q; m] →
            occurrences k (sorted_points l) = occurrences k l) as Hocc.
  { intros l Hl. apply (occurrences_same_DT k (DT p)).
    intros r Hr Hrk. rewrite Hl in Hr.
    apply list_elem_of_In in Hr. simpl in Hr.
    destruct Hr as [<-|[<-|[<-|[]]]]; [done|done|].
    by destruct Hne. }
  assert (occurrences k [p; q; m] = [p; q]) as Ho.
  { unfold occurrences. rewrite !filter_cons, filter_nil.
    rewrite decide_True by done. rewrite decide_True by done.
    by rewrite decide_False by (intros Heq; by destruct Hne). }
  assert (occurrences k [q; p; m] = [q; p]) as Ho'.
  { unfold occurrences. rewrite !filter_cons, filter_nil.
    rewrite decide_True by done. rewrite decide_True by done.
    by rewrite decide_False by (intros Heq; by destruct Hne). }
  destruct (calculate_rates_rows [p; q; m]) as (M1 & rows & HM1 & Hok & _);
    [done|].
  destruct (calculate_rates_rows [q; p; m]) as (M2 & rows' & HM2 & Hok' & _);
    [done|].
  assert (k ∈ order [p; q; m]) as Hk.
  { apply elem_of_order. exists p. split; [left|done]. }
  apply list_elem_of_lookup in Hk as [i Hi].
  pose proof Hi as Hi'. rewrite (order_Permutation _ _ Hperm) in Hi'.
  destruct (calculate_rates_lookup _ _ _ _ _ Hok (Hmax _ (reflexivity _)) Hi)
    as [Hrow _].
  destruct (calculate_rates_lookup _ _ _ _ _ Hok'
              (Hmax _ (symmetry Hperm)) Hi') as [Hrow' _].
  rewrite merge_loop_other in Hrow, Hrow' by done.
  rewrite (Hocc _ (reflexivity _)), Ho in Hrow.
  rewrite (Hocc _ (symmetry Hperm)), Ho' in Hrow'.
  split.
  - rewrite Hok, Hok'. intros [= Heq]. rewrite Heq, Hrow' in Hrow.
    injection Hrow as _ _ HV HS _ _.
    destruct Hdiff as [Hd|Hd]; by destruct Hd.
  - by exists i, rows, rows'.
Qed.

End strict_facts.

End MergerFacts.

(** * Examples for the rest of the program *)

(** A directory with a subdirectory, three exports, two files of the
    program's own and a file of notes. *)
Definition example_walk (directory : string)
    : list (string * list string * list string) :=
  [ (directory, ["old"], ["run2.csv"; "dj_joined.csv"; "notes.txt"; "run1.csv"]);
    (directory +:+ "/old", [], ["run0.csv"; "dj_dump.csv"]) ]%string.

Definition empty_walk (directory : string)
    : list (string * list string * list string) :=
  [(directory, [], ["dj_joined.csv"; "notes.txt"])]%string.

(** A reader of lines of unquoted cells, standing for [csv.reader]. *)
Fixpoint split_on (sep : ascii) (s : string) : list string :=
  match s with
  | EmptyString => [EmptyString]
  | String c s' =>
      if decide (c = sep) then EmptyString :: split_on sep s'
      else
        match split_on sep s' with
        | cell :: cells => String c cell :: cells
        | [] => [String c EmptyString]
        end
  end.

Definition plain_reader (dialect : Dialect) (text : string)
    : list (list string) :=
  split_on (delimiter dialect) <$> split_on char_lf text.

(** A sniffer that never detects anything. *)
Definition no_sniffer (sample delimiters : string) : option Dialect := None.

(** A printer of the decimals of the examples: the digits, with the
    point as many places from the end as the decimal says. *)
Definition dec_str_float (x : Z * nat) : string :=
  let digits := pretty (Z.abs x.1) in
  let padded :=
    String.concat "" (replicate (S x.2 - String.length digits) "0"%string)
    +:+ digits in
  let k := (String.length padded - x.2)%nat in
  (if x.1 <? 0 then "-" else "") +:+ substring 0 k padded +:+ "." +:+
  (if decide (x.2 = 0%nat) then "0" else substring k x.2 padded).

(** The text of the example export, and files that all hold it. *)
Definition example_text : string :=
  String.concat (String char_lf EmptyString)
    (String.concat "," <$> example_grid).

Definition example_open (filename : string) : TextIO :=
  mkTextIO example_text 0.

(** The same files, of which one is cut short. *)
Definition broken_open (filename : string) : TextIO :=
  if decide (filename = "data/run1.csv"%string) then mkTextIO "Brookfield" 0
  else mkTextIO example_text 0.

Definition example_items : list (string * pyval (Z * nat)) :=
  [ ("DT", VDateTime 1036830); ("Speed", VInt 100);
    ("Shear Rate", VFloat (132, 1%nat)); ("Viscosity", VStr "EEEE") ]%string.

Definition example_options : Namespace :=
  mkNamespace "data" "dj_joined.csv" "dj_dump.csv".

Lemma example_collect_files :
  collect_files example_walk "data" =
  ["data/run2.csv"; "data/run1.csv"; "data/old/run0.csv"]%string.
Proof. vm_compute. reflexivity. Qed.

Lemma example_read_items :
  read_data_items _ dec_int dec_float no_sniffer plain_reader dec_datetime
    (example_open "data/run1.csv") = Ok example_items.
Proof. vm_compute. reflexivity. Qed.

Lemma example_dump :
  dump _ dec_str_float [example_items] =
  Ok [ [VStr "DT"; VStr "Speed"; VStr "Shear Rate"; VStr "Viscosity"];
       [VDateTime 1036830; VInt 100; VStr "13,2"; VStr "EEEE"] ]%string.
Proof. vm_compute. reflexivity. Qed.

Lemma collect_files_csv_witness :
  ∃ stem, "data/old/run0.csv"%string = stem +:+ ".csv".
Proof.
  apply (collect_files_csv example_walk "data" "data/old/run0.csv").
  vm_compute. do 2 right. left.
Defined.

Lemma dump_rows_witness :
  ∃ first body,
    [example_items; example_items] !! 0%nat = Some first ∧
    [ [VStr "DT"; VStr "Speed"; VStr "Shear Rate"; VStr "Viscosity"];
      [VDateTime 1036830; VInt 100; VStr "13,2"; VStr "EEEE"];
      [VDateTime 1036830; VInt 100; VStr "13,2"; VStr "EEEE"] ]%string =
      (VStr <$> first.*1) :: body ∧
    length body = length [example_items; example_items] ∧
    ∀ i point, [example_items; example_items] !! i = Some point →
      ∃ row, body !! i = Some row ∧ length row = length point ∧
        (point.*1 = first.*1 → NoDup point.*1 →
         ∀ j key, first.*1 !! j = Some key →
           ∃ cell,
             (list_to_map point : gmap string (pyval (Z * nat))) !! key
               = Some cell ∧
             row !! j = Some (stringify_values _ dec_str_float cell)).
Proof.
  apply (dump_rows _ dec_str_float [example_items; example_items]).
  vm_compute. reflexivity.
Defined.

Lemma main_points_Ok_witness :
  ∃ files,
    files ≡ₚ collect_files example_walk (ns_directory example_options) ∧
    StronglySorted String.le files ∧
    Forall2 (λ filename point,
      read_data_items _ dec_int dec_float no_sniffer plain_reader dec_datetime
        (example_open filename) = Ok point)
      files [example_items; example_items; example_items].
Proof.
  apply (main_points_Ok _ dec_int dec_float no_sniffer plain_reader
           dec_datetime example_walk example_open example_options).
  vm_compute. reflexivity.
Defined.

Lemma main_points_Raise_witness :
  main_points _ dec_int dec_float no_sniffer plain_reader dec_datetime
    example_walk broken_open example_options = Raise IndexError ∧
  main_dump _ dec_int dec_float no_sniffer plain_reader dec_datetime
    dec_str_float example_walk broken_open example_options = Raise IndexError.
Proof.
  apply (main_points_Raise _ dec_int dec_float no_sniffer plain_reader
           dec_datetime dec_str_float example_walk broken_open example_options
           ["data/old/run0.csv"]%string ["data/run2.csv"]%string
           "data/run1.csv" IndexError).
  - vm_compute. reflexivity.
  - repeat constructor. exists example_items. vm_compute. reflexivity.
  - vm_compute. reflexivity.
Defined.

Lemma main_dump_no_files_witness :
  main_points _ dec_int dec_float no_sniffer plain_reader dec_datetime
    empty_walk example_open example_options = Ok [] ∧
  main_dump _ dec_int dec_float no_sniffer plain_reader dec_datetime
    dec_str_float empty_walk example_open example_options =
    if decide (ns_dump example_options = EmptyString) then Ok ([], None)
    else Raise IndexError.
Proof.
  apply (main_dump_no_files _ dec_int dec_float no_sniffer plain_reader
           dec_datetime dec_str_float empty_walk example_open example_options).
  vm_compute. reflexivity.
Defined.

Lemma calculate_rates_count_witness :
  length example_rows =
  size (list_to_set (point_key <$> example_points) : gset (Z * Z)).
Proof.
  apply (calculate_rates_count example_points example_rows).
  vm_compute. reflexivity.
Defined.

Lemma calculate_rates_row_length_iff_witness :
  (length [100; 50; 7; 8; 11; 12] = 4%nat ↔
     (100, 50) ≠ (200, 80) ∧
     length (occurrences (100, 50) example_points) = 1%nat) ∧
  (length [100; 50; 7; 8; 11; 12] = 6%nat ↔
     (100, 50) = (200, 80) ∨
     (2 ≤ length (occurrences (100, 50)%Z example_points))%nat).
Proof.
  apply (calculate_rates_row_length_iff example_points example_rows
           (200, 80) (100, 50) 1 [100; 50; 7; 8; 11; 12]);
    vm_compute; reflexivity.
Defined.

Lemma calculate_rates_cells_witness :
  ∃ k, row_key [100; 50; 7; 8; 11; 12] = Some k ∧
    ∀ v, v ∈ [100; 50; 7; 8; 11; 12] →
      ∃ p, p ∈ example_points ∧ point_key p = k ∧ v ∈ row4 p.
Proof.
  apply (calculate_rates_cells example_points example_rows).
  - vm_compute. reflexivity.
  - right. left.
Defined.

Lemma calculate_rates_Permutation_witness :
  calculate_rates example_points = calculate_rates (reverse example_points).
Proof.
  apply (calculate_rates_Permutation example_points (reverse example_points)).
  - vm_compute. repeat constructor; rewrite ?elem_of_cons, ?elem_of_nil; lia.
  - symmetry. apply reverse_Permutation.
Defined.

Lemma calculate_rates_ties_witness :
  calculate_rates [mkPoint 1 100 50 7 8; mkPoint 1 100 50 11 12;
                   mkPoint 2 200 80 9 10] ≠
  calculate_rates [mkPoint 1 100 50 11 12; mkPoint 1 100 50 7 8;
                   mkPoint 2 200 80 9 10] ∧
  ∃ i rows rows',
    calculate_rates [mkPoint 1 100 50 7 8; mkPoint 1 100 50 11 12;
                     mkPoint 2 200 80 9 10] = Ok rows ∧
    calculate_rates [mkPoint 1 100 50 11 12; mkPoint 1 100 50 7 8;
                     mkPoint 2 200 80 9 10] = Ok rows' ∧
    rows !! i = Some [100; 50; 7; 8; 11; 12] ∧
    rows' !! i = Some [100; 50; 11; 12; 7; 8].
Proof.
  apply (calculate_rates_ties (mkPoint 1 100 50 7 8) (mkPoint 1 100 50 11 12)
           (mkPoint 2 200 80 9 10)).
  - reflexivity.
  - reflexivity.
  - left. simpl. unfold lexico, Z_lexico. lia.
  - left. simpl. lia.
Defined.

Lemma read_grid_DT_clash_witness :
  read_grid _ dec_int dec_float dec_datetime
    (<[8%nat := ["Speed"; "DT"]%string]> example_grid) = Raise TypeError.
Proof.
  apply (read_grid_DT_clash _ dec_int dec_float dec_datetime
           (<[8%nat := ["Speed"; "DT"]%string]> example_grid)
           ["Date"; "Time"; "12"; "30"]%string "12" "30" 1036830
           ["Speed"; "DT"]%string ["100"; "13.2"; "EEEE"; "7"]%string);
    try reflexivity.
  simpl. right. left.
Defined.

(** The example parser with its error. *)
Definition dec_datetime_exn (s : string) : result datetime :=
  or_raise ValueError (dec_datetime s).

(** The example grid with a time that the parser does not read. *)
Definition example_grid_noon : list (list string) :=
  <[7%nat := ["Date"; "Time"; "12"; "noon"]%string]> example_grid.

Lemma example_grid_noon_raises :
  read_grid_exn _ dec_int dec_float dec_datetime_exn example_grid_noon =
    Raise ValueError.
Proof. vm_compute. reflexivity. Qed.

Lemma read_grid_errors_witness :
  (ValueError = IndexError ∧
     ((length example_grid_noon < 8)%nat ∨
      ∃ row, example_grid_noon !! 7%nat = Some row ∧ (length row < 4)%nat)) ∨
  (∃ row d t, example_grid_noon !! 7%nat = Some row ∧
     row !! 2%nat = Some d ∧ row !! 3%nat = Some t ∧
     dec_datetime_exn (d +:+ " " +:+ t) = Raise ValueError) ∨
  (ValueError = TypeError ∧
     ∃ row d t dt names values,
       example_grid_noon !! 7%nat = Some row ∧ row !! 2%nat = Some d ∧
       row !! 3%nat = Some t ∧
       dec_datetime_exn (d +:+ " " +:+ t) = Ok dt ∧
       example_grid_noon !! (length example_grid_noon - 3)%nat = Some names ∧
       example_grid_noon !! (length example_grid_noon - 1)%nat = Some values ∧
       "DT"%string ∈ take (length values) names).
Proof.
  apply (read_grid_errors _ dec_int dec_float dec_datetime_exn
           example_grid_noon ValueError).
  vm_compute. reflexivity.
Defined.
